(** * Four in a row: the game-state engine and its move selector

    A shallow embedding of the core of [Four_in_a_row.py] (board primitives,
    win detection, the window heuristic and the one-ply move selector),
    followed by the properties the specification states about it.

    Conventions of the embedding.
    - A numpy array of the game is held by reference: a [heap] maps a
      location to the contents of the array, a list of rows of integers.
      Functions of the source that only read their board argument are
      functions of those contents; functions that allocate or write
      ([create_board], [board.copy()], [drop_piece], [pick_best_move],
      [get_recommended_move]) run in the state monad [St] over the heap.
    - A Python exception is [Raise]; Python's [None] where the source
      returns [Optional[int]] is Rocq's [None].
    - Row and column indices are natural numbers (the source only produces
      them with [range]); numpy's wrap-around of negative indices is thus
      outside the model. *)

From Stdlib Require Import ZArith Lia.
From stdpp Require Import base option list gmap strings pretty sorting.

Local Open Scope Z_scope.

(** ** Exceptions *)

Inductive exc (A : Type) : Type :=
  | Ret (a : A)
  | Raise.
Arguments Ret {A} a.
Arguments Raise {A}.

#[global] Instance exc_ret : MRet exc := λ A a, Ret a.
#[global] Instance exc_bind : MBind exc := λ A B f m,
  match m with
  | Ret a => f a
  | Raise => Raise
  end.

Definition is_Ret {A} (m : exc A) : Prop := ∃ a, m = Ret a.

(** [for x in l: if f(x): return x] followed by [return None]. *)
Fixpoint for_find {A} (f : A → exc bool) (l : list A) : exc (option A) :=
  match l with
  | [] => Ret None
  | x :: l' => t ← f x; if (t : bool) then Ret (Some x) else for_find f l'
  end.

(** [for x in l: if f(x): return True], the loop falling through on
    [False]. *)
Fixpoint for_any {A} (f : A → exc bool) (l : list A) : exc bool :=
  match l with
  | [] => Ret false
  | x :: l' => t ← f x; if (t : bool) then Ret true else for_any f l'
  end.

(** [for x in l: acc = f(acc, x)]. *)
Fixpoint for_fold {A S} (f : S → A → exc S) (l : list A) (acc : S) : exc S :=
  match l with
  | [] => Ret acc
  | x :: l' => acc' ← f acc x; for_fold f l' acc'
  end.

(** [[g(x) for x in l]]. *)
Fixpoint for_map {A B} (g : A → exc B) (l : list A) : exc (list B) :=
  match l with
  | [] => Ret []
  | x :: l' => y ← g x; ys ← for_map g l'; Ret (y :: ys)
  end.

(** [[x for x in l if f(x)]]. *)
Fixpoint for_filter {A} (f : A → exc bool) (l : list A) : exc (list A) :=
  match l with
  | [] => Ret []
  | x :: l' => t ← f x; xs ← for_filter f l';
               Ret (if (t : bool) then x :: xs else xs)
  end.

(** Python's short-circuit [x and y] and [x or y] on booleans: [y] is
    evaluated (and may raise) only when [x] does not decide. *)
Definition py_and (x y : exc bool) : exc bool :=
  t ← x; if (t : bool) then y else Ret false.
Definition py_or (x y : exc bool) : exc bool :=
  t ← x; if (t : bool) then Ret true else y.

(** ** Board setup *)

Definition ROW_COUNT : nat := 6.
Definition COLUMN_COUNT : nat := 7.
Definition WINDOW_LENGTH : nat := 4.

Definition EMPTY : Z := 0.
Definition PLAYER_PIECE : Z := 1.
Definition AI_PIECE : Z := 2.

(** Contents of a two-dimensional integer array, row by row. *)
Abbreviation board := (list (list Z)).

(** The arrays of the game have shape [(ROW_COUNT, COLUMN_COUNT)]. *)
Definition board_shape (b : board) : Prop :=
  length b = ROW_COUNT ∧ Forall (λ row, length row = COLUMN_COUNT) b.

Definition board_shapeb (b : board) : bool :=
  (length b =? ROW_COUNT)%nat && forallb (λ row, (length row =? COLUMN_COUNT)%nat) b.

(** [board[r][c]]: an index outside the array raises [IndexError]. *)
Definition getitem (b : board) (r c : nat) : exc Z :=
  match b !! r with
  | Some row => match row !! c with
                | Some v => Ret v
                | None => Raise
                end
  | None => Raise
  end.

(** [board[r, :]] as a list. *)
Definition row_of (b : board) (r : nat) : exc (list Z) :=
  match b !! r with
  | Some row => Ret row
  | None => Raise
  end.

(** [board[:, c]] as a list. *)
Definition column_of (b : board) (c : nat) : exc (list Z) :=
  for_map (λ row : list Z, match row !! c with
                           | Some v => Ret v
                           | None => Raise
                           end) b.

(** [l[i:j]] for [0 <= i <= j]: a slice never raises, it truncates. *)
Definition slice {A} (l : list A) (i j : nat) : list A :=
  take (j - i) (drop i l).

(** [l.count(x)]. *)
Fixpoint count (l : list Z) (x : Z) : Z :=
  match l with
  | [] => 0
  | y :: l' => (if y =? x then 1 else 0) + count l' x
  end.

(** ** Board queries *)

Definition is_valid_location (b : board) (col : nat) : exc bool :=
  v ← getitem b (ROW_COUNT - 1) col; Ret (v =? EMPTY).

Definition get_next_open_row (b : board) (col : nat) : exc (option nat) :=
  for_find (λ r, v ← getitem b r col; Ret (v =? EMPTY)) (seq 0 ROW_COUNT).

(** [board[r][c] == piece]. *)
Definition holds (b : board) (piece : Z) (r c : nat) : exc bool :=
  v ← getitem b r c; Ret (v =? piece).

(** The four scans of [winning_move], in the order of the source. *)
Definition winning_move_horizontal (b : board) (piece : Z) : exc bool :=
  for_any (λ c, for_any (λ r,
      py_and (holds b piece r c)
     (py_and (holds b piece r (c + 1))
     (py_and (holds b piece r (c + 2))
             (holds b piece r (c + 3)))))
    (seq 0 ROW_COUNT)) (seq 0 (COLUMN_COUNT - 3)).

Definition winning_move_vertical (b : board) (piece : Z) : exc bool :=
  for_any (λ c, for_any (λ r,
      py_and (holds b piece r c)
     (py_and (holds b piece (r + 1) c)
     (py_and (holds b piece (r + 2) c)
             (holds b piece (r + 3) c))))
    (seq 0 (ROW_COUNT - 3))) (seq 0 COLUMN_COUNT).

Definition winning_move_rising (b : board) (piece : Z) : exc bool :=
  for_any (λ c, for_any (λ r,
      py_and (holds b piece r c)
     (py_and (holds b piece (r + 1) (c + 1))
     (py_and (holds b piece (r + 2) (c + 2))
             (holds b piece (r + 3) (c + 3)))))
    (seq 0 (ROW_COUNT - 3))) (seq 0 (COLUMN_COUNT - 3)).

Definition winning_move_falling (b : board) (piece : Z) : exc bool :=
  for_any (λ c, for_any (λ r,
      py_and (holds b piece r c)
     (py_and (holds b piece (r - 1) (c + 1))
     (py_and (holds b piece (r - 2) (c + 2))
             (holds b piece (r - 3) (c + 3)))))
    (seq 3 (ROW_COUNT - 3))) (seq 0 (COLUMN_COUNT - 3)).

(** Each scan returns [True] from [winning_move] on its first hit, and
    [False] is returned after the four. *)
Definition winning_move (b : board) (piece : Z) : exc bool :=
  py_or (winning_move_horizontal b piece)
 (py_or (winning_move_vertical b piece)
 (py_or (winning_move_rising b piece)
 (py_or (winning_move_falling b piece)
        (Ret false)))).

(** ** The heuristic *)

Definition evaluate_window (window : list Z) (piece : Z) : Z :=
  let score := 0 in
  let opp_piece := if piece =? AI_PIECE then PLAYER_PIECE else AI_PIECE in
  let score :=
    if count window piece =? 4 then score + 100
    else if (count window piece =? 3) && (count window EMPTY =? 1) then score + 5
    else if (count window piece =? 2) && (count window EMPTY =? 2) then score + 2
    else score in
  let score :=
    if (count window opp_piece =? 3) && (count window EMPTY =? 1) then score - 4
    else score in
  score.

Definition score_position (b : board) (piece : Z) : exc Z :=
  let score := 0 in
  center_array ← column_of b (COLUMN_COUNT / 2);
  let center_count := count center_array piece in
  let score := score + center_count * 3 in
  score ← for_fold (λ score r,
      row_array ← row_of b r;
      for_fold (λ score c,
          let window := slice row_array c (c + WINDOW_LENGTH) in
          Ret (score + evaluate_window window piece))
        (seq 0 (COLUMN_COUNT - 3)) score)
    (seq 0 ROW_COUNT) score;
  score ← for_fold (λ score c,
      col_array ← column_of b c;
      for_fold (λ score r,
          let window := slice col_array r (r + WINDOW_LENGTH) in
          Ret (score + evaluate_window window piece))
        (seq 0 (ROW_COUNT - 3)) score)
    (seq 0 COLUMN_COUNT) score;
  score ← for_fold (λ score r,
      for_fold (λ score c,
          window ← for_map (λ i, getitem b (r + i) (c + i)) (seq 0 WINDOW_LENGTH);
          Ret (score + evaluate_window window piece))
        (seq 0 (COLUMN_COUNT - 3)) score)
    (seq 0 (ROW_COUNT - 3)) score;
  score ← for_fold (λ score r,
      for_fold (λ score c,
          window ← for_map (λ i, getitem b (r + 3 - i) (c + i)) (seq 0 WINDOW_LENGTH);
          Ret (score + evaluate_window window piece))
        (seq 0 (COLUMN_COUNT - 3)) score)
    (seq 0 (ROW_COUNT - 3)) score;
  Ret score.

Definition get_valid_locations (b : board) : exc (list nat) :=
  for_filter (λ c, is_valid_location b c) (seq 0 COLUMN_COUNT).

Definition is_terminal_node (b : board) : exc bool :=
  py_or (winning_move b PLAYER_PIECE)
 (py_or (winning_move b AI_PIECE)
        (valid_locations ← get_valid_locations b;
         Ret (length valid_locations =? 0)%nat)).

(** ** Arrays on the heap *)

Definition loc : Type := positive.
Abbreviation heap := (gmap loc board).

(** Computations that read, allocate and write arrays and may raise. *)
Definition St (A : Type) : Type := heap → exc (A * heap).

#[global] Instance St_ret : MRet St := λ A a h, Ret (a, h).
#[global] Instance St_bind : MBind St := λ A B f m h,
  match m h with
  | Ret (a, h') => f a h'
  | Raise => Raise
  end.

Definition lift {A} (m : exc A) : St A := λ h,
  match m with
  | Ret a => Ret (a, h)
  | Raise => Raise
  end.

Definition raise {A} : St A := λ _, Raise.

(** The contents of the array a reference points to. *)
Definition deref (l : loc) : St board := λ h,
  match h !! l with
  | Some b => Ret (b, h)
  | None => Raise
  end.

Definition store (l : loc) (b : board) : St unit := λ h, Ret ((), <[l := b]> h).

(** A new array, distinct from every live one. *)
Definition alloc (b : board) : St loc := λ h,
  let l := fresh (dom h) in Ret (l, <[l := b]> h).

(** [for x in l: acc = f(acc, x)] for a body with effects. *)
Fixpoint for_fold_St {A S} (f : S → A → St S) (l : list A) (acc : S) : St S :=
  match l with
  | [] => mret acc
  | x :: l' => acc' ← f acc x; for_fold_St f l' acc'
  end.

(** Cells are 64-bit integers ([dtype=int]): storing a Python integer
    outside that range raises [OverflowError]. *)
Definition int64_ok (v : Z) : bool := (- 2 ^ 63 <=? v) && (v <? 2 ^ 63).

(** The contents of [np.zeros((rows, cols), dtype=int)]. *)
Definition zeros (rows cols : nat) : board := replicate rows (replicate cols 0).

Definition create_board : St loc :=
  alloc (zeros ROW_COUNT COLUMN_COUNT).

(** [board.copy()]: a new array with the same contents. *)
Definition ndarray_copy (l : loc) : St loc :=
  b ← deref l; alloc b.

(** [board[row][col] = v]. With an integer [row] this writes one cell, and
    indices outside the array raise. Python also lets [row] be [None] (what
    [get_next_open_row] returns for a full column): numpy then reads
    [board[None]] as the array under a new leading axis of length one, so
    that index [0] of it is the whole array, which the assignment fills
    with [v], and any other index raises. *)
Definition setitem (l : loc) (row : option nat) (col : nat) (v : Z) : St unit :=
  b ← deref l;
  if negb (int64_ok v) then raise else
  match row with
  | Some r =>
      match b !! r with
      | Some cells =>
          if decide (col < length cells)%nat
          then store l (<[r := <[col := v]> cells]> b)
          else raise
      | None => raise
      end
  | None =>
      if decide (col = 0%nat)
      then store l (map (map (λ _, v)) b)
      else raise
  end.

Definition drop_piece (l : loc) (row : option nat) (col : nat) (piece : Z) : St unit :=
  setitem l row col piece.

(** ** The move selector *)

(** The running best score starts at [-math.inf] and then holds integers. *)
Inductive score : Type :=
  | NegInf
  | Int (z : Z).

(** [s > best] for an integer [s]. *)
Definition exceeds (s : Z) (best : score) : bool :=
  match best with
  | NegInf => true
  | Int z => z <? s
  end.

(** One turn of the loop of [pick_best_move]: simulate the drop in [col] on
    a copy and keep the better of the running best and this column. *)
Definition pick_best_move_body (l : loc) (piece : Z)
    (best : nat * score) (col : nat) : St (nat * score) :=
  let '(best_col, best_score) := best in
  b ← deref l;
  row ← lift (get_next_open_row b col);
  temp_board ← ndarray_copy l;
  drop_piece temp_board row col piece;;
  t ← deref temp_board;
  s ← lift (score_position t piece);
  if exceeds s best_score
  then mret (col, Int s)
  else mret (best_col, best_score).

Definition pick_best_move (l : loc) (piece : Z) : St (option nat * score) :=
  b ← deref l;
  valid_locations ← lift (get_valid_locations b);
  match valid_locations with
  | [] => mret (None, Int 0)
  | first :: _ =>
      let best_score := NegInf in
      let best_col := first in
      best ← for_fold_St (pick_best_move_body l piece)
                valid_locations (best_col, best_score);
      mret (Some best.1, best.2)
  end.

(** [f"Drop in column {col + 1}."] *)
Definition drop_message (col : nat) : string :=
  "Drop in column " +:+ pretty (col + 1)%nat +:+ ".".

Definition get_recommended_move (l : loc) : St (option nat * string) :=
  b ← deref l;
  terminal ← lift (is_terminal_node b);
  if (terminal : bool) then mret (None, "Board is already in a finished state.")
  else
    best ← pick_best_move l PLAYER_PIECE;
    match best.1 with
    | None => mret (None, "No valid moves.")
    | Some col => mret (Some col, drop_message col)
    end.

(** The undo handler of [run_game] clears the cell of the move it pops:
    [board[row][col] = EMPTY]. *)
Definition undo_cell (l : loc) (row col : nat) : St unit :=
  setitem l (Some row) col EMPTY.

(** ** Specification-side notions *)

(** The other non-empty piece. *)
Definition opponent (piece : Z) : Z :=
  if piece =? PLAYER_PIECE then AI_PIECE else PLAYER_PIECE.

(** A cell value of the game: Empty, the player's piece or the opponent's. *)
Definition is_cell (v : Z) : Prop := v = EMPTY ∨ v = PLAYER_PIECE ∨ v = AI_PIECE.

Definition is_piece (v : Z) : Prop := v = PLAYER_PIECE ∨ v = AI_PIECE.

(** The cell at [(r, c)], read as Empty outside the array. *)
Definition cell (b : board) (r c : nat) : Z :=
  match getitem b r c with
  | Ret v => v
  | Raise => EMPTY
  end.

(** The contents of a board after [board[r][c] = v] with [(r, c)] inside. *)
Definition place (b : board) (r c : nat) (v : Z) : board :=
  match b !! r with
  | Some cells => <[r := <[c := v]> cells]> b
  | None => b
  end.

(** The board seen in a mirror: column [c] becomes column
    [COLUMN_COUNT - 1 - c] ([board[:, ::-1]]). *)
Definition mirror_board (b : board) : board := reverse <$> b.

(** Four given cells all hold [piece]. *)
Definition line (b : board) (piece : Z) (r0 c0 r1 c1 r2 c2 r3 c3 : nat) : bool :=
  (cell b r0 c0 =? piece) && ((cell b r1 c1 =? piece) &&
  ((cell b r2 c2 =? piece) && (cell b r3 c3 =? piece))).

(** Some window of a direction is filled with [piece]: [rs] and [cs] are
    the ranges of anchors, [w r c] the test of the window anchored at
    [(r, c)]. *)
Definition any_window (cs rs : list nat) (w : nat → nat → bool) : bool :=
  existsb (λ c, existsb (λ r, w r c) rs) cs.

Definition wins_horizontal (b : board) (piece : Z) : bool :=
  any_window (seq 0 (COLUMN_COUNT - 3)) (seq 0 ROW_COUNT)
    (λ r c, line b piece r c r (c + 1) r (c + 2) r (c + 3)).

Definition wins_vertical (b : board) (piece : Z) : bool :=
  any_window (seq 0 COLUMN_COUNT) (seq 0 (ROW_COUNT - 3))
    (λ r c, line b piece r c (r + 1) c (r + 2) c (r + 3) c).

Definition wins_rising (b : board) (piece : Z) : bool :=
  any_window (seq 0 (COLUMN_COUNT - 3)) (seq 0 (ROW_COUNT - 3))
    (λ r c, line b piece r c (r + 1) (c + 1) (r + 2) (c + 2) (r + 3) (c + 3)).

Definition wins_falling (b : board) (piece : Z) : bool :=
  any_window (seq 0 (COLUMN_COUNT - 3)) (seq 3 (ROW_COUNT - 3))
    (λ r c, line b piece r c (r - 1) (c + 1) (r - 2) (c + 2) (r - 3) (c + 3)).

Definition wins (b : board) (piece : Z) : bool :=
  wins_horizontal b piece || (wins_vertical b piece ||
  (wins_rising b piece || (wins_falling b piece || false))).

(** The columns whose top cell is Empty, in ascending order. *)
Definition valid_columns (b : board) : list nat :=
  List.filter (λ c, cell b (ROW_COUNT - 1) c =? EMPTY) (seq 0 COLUMN_COUNT).

(** The score of the position reached from [b] by dropping [piece] in
    [col]: the drop row is computed, the piece placed there, and the
    resulting board scored. *)
Definition simulate (b : board) (piece : Z) (col : nat) : exc Z :=
  row ← get_next_open_row b col;
  match row with
  | Some r => score_position (place b r col piece) piece
  | None => Raise
  end.

(** The running best after a column scoring [s] has been looked at. *)
Definition better (best : nat * score) (col : nat) (s : Z) : nat * score :=
  if exceeds s best.2 then (col, Int s) else best.

(** The selection of [pick_best_move] as a function of the board alone. *)
Definition best_move (b : board) (piece : Z) : exc (option nat * score) :=
  match valid_columns b with
  | [] => Ret (None, Int 0)
  | first :: _ =>
      best ← for_fold (λ best col, s ← simulate b piece col;
                                   Ret (better best col s))
                (valid_columns b) (first, NegInf);
      Ret (Some best.1, best.2)
  end.

(** The score [simulate] returns, read as 0 where it raises. *)
Definition simulated_score (b : board) (piece : Z) (col : nat) : Z :=
  match simulate b piece col with
  | Ret s => s
  | Raise => 0
  end.

(** A move of the game loop of [run_game]: the drop row of the column is
    computed and the piece dropped there; the row is what the loop records
    for undo. *)
Definition drop_in (l : loc) (col : nat) (piece : Z) : St (option nat) :=
  b ← deref l;
  row ← lift (get_next_open_row b col);
  drop_piece l row col piece;;
  mret row.

(** Four drops of the player's piece in columns 0 to 3 of a new board, and
    what win detection and the terminal test say of the result. *)
Definition four_in_bottom_row : St (list (option nat) * bool * bool) :=
  l ← create_board;
  r0 ← drop_in l 0 PLAYER_PIECE;
  r1 ← drop_in l 1 PLAYER_PIECE;
  r2 ← drop_in l 2 PLAYER_PIECE;
  r3 ← drop_in l 3 PLAYER_PIECE;
  b ← deref l;
  won ← lift (winning_move b PLAYER_PIECE);
  terminal ← lift (is_terminal_node b);
  mret ([r0; r1; r2; r3], won, terminal).

(** The first move of a game, as the selector sees it. *)
Definition opening_move (piece : Z) : St (option nat * score) :=
  l ← create_board; pick_best_move l piece.

(** A position in mid-game, with column 3 full. *)
Definition sample_board : board :=
  [ [1; 2; 2; 1; 0; 0; 0];
    [0; 1; 2; 2; 0; 0; 0];
    [0; 0; 1; 1; 0; 0; 0];
    [0; 0; 0; 2; 0; 0; 0];
    [0; 0; 0; 1; 0; 0; 0];
    [0; 0; 0; 2; 0; 0; 0] ].

(** No piece floats: below a cell that is not Empty no cell is Empty. *)
Definition settled (b : board) : Prop :=
  ∀ r r' c, (r' < r)%nat → (r < ROW_COUNT)%nat → (c < COLUMN_COUNT)%nat →
    cell b r c ≠ EMPTY → cell b r' c ≠ EMPTY.

(** The steps [(dr, dc)] along a row, a column and the two diagonals. *)
Definition directions : list (Z * Z) := [(0, 1); (1, 0); (1, 1); (-1, 1)].

(** The cell at integer coordinates, if they are inside the array. *)
Definition cell_at (b : board) (r c : Z) : option Z :=
  if (0 <=? r) && (0 <=? c)
  then match b !! Z.to_nat r with
       | Some cells => cells !! Z.to_nat c
       | None => None
       end
  else None.

(** Four cells in a line, all inside the board, hold [piece]. *)
Definition four_in_line (b : board) (piece : Z) : Prop :=
  ∃ r c dr dc, (dr, dc) ∈ directions ∧
    ∀ i, 0 ≤ i < 4 → cell_at b (r + i * dr) (c + i * dc) = Some piece.

(** The bottom row after the player's drops in columns 0 to 3. *)
Definition won_board : board :=
  [ [1; 1; 1; 1; 0; 0; 0];
    [0; 0; 0; 0; 0; 0; 0];
    [0; 0; 0; 0; 0; 0; 0];
    [0; 0; 0; 0; 0; 0; 0];
    [0; 0; 0; 0; 0; 0; 0];
    [0; 0; 0; 0; 0; 0; 0] ].

(** ** The game loop *)

Definition PLAYER : Z := 0.
Definition AI : Z := 1.

Definition SQUARESIZE : Z := 100.
Definition PANEL_WIDTH : Z := 320.
Definition BOARD_WIDTH : Z := Z.of_nat COLUMN_COUNT * SQUARESIZE.
Definition BOARD_HEIGHT : Z := (Z.of_nat ROW_COUNT + 1) * SQUARESIZE.
Definition WINDOW_WIDTH : Z := PANEL_WIDTH + BOARD_WIDTH.
Definition WINDOW_HEIGHT : Z := BOARD_HEIGHT.

Definition RED : Z * Z * Z := (255, 0, 0).
Definition YELLOW : Z * Z * Z := (255, 255, 0).
Definition TEXT_LIGHT : Z * Z * Z := (230, 230, 230).
Definition WARNING_COLOR : Z * Z * Z := (255, 80, 80).

(** [pygame.Rect(left, top, width, height)]. *)
Record Rect : Type := mkRect {
  rect_left : Z;
  rect_top : Z;
  rect_width : Z;
  rect_height : Z
}.

(** [rect.collidepoint(pos)]: the right and bottom edges are outside. *)
Definition collidepoint (rect : Rect) (pos : Z * Z) : bool :=
  (rect_left rect <=? pos.1) && (pos.1 <? rect_left rect + rect_width rect) &&
  (rect_top rect <=? pos.2) && (pos.2 <? rect_top rect + rect_height rect).

Definition undo_rect : Rect := mkRect 30 (WINDOW_HEIGHT - 240) (PANEL_WIDTH - 60) 55.
Definition restart_rect : Rect := mkRect 30 (WINDOW_HEIGHT - 170) (PANEL_WIDTH - 60) 55.
Definition solution_rect : Rect := mkRect 30 (WINDOW_HEIGHT - 100) (PANEL_WIDTH - 60) 55.
Definition play_again_rect : Rect :=
  mkRect 40 (WINDOW_HEIGHT / 2 - 40) (PANEL_WIDTH - 80) 50.
Definition exit_rect : Rect :=
  mkRect 40 (WINDOW_HEIGHT / 2 + 30) (PANEL_WIDTH - 80) 50.

(** The line break the messages of the side panel contain. *)
Definition nl : string := String (Ascii.ascii_of_nat 10) EmptyString.

(** A recorded move [(col, row, piece)]; the row is what
    [get_next_open_row] returned. *)
Abbreviation move := (nat * option nat * Z)%type.

(** The local variables of [run_game]. *)
Record session : Type := mkSession {
  board_ref : loc;
  game_over : bool;
  turn : Z;
  history : list move;
  last_move_msg : string;
  status_msg : string;
  warning_msg : string;
  recommendation_msg : string;
  game_over_msg : string;
  game_over_color : Z * Z * Z;
  ai_think_start : option Z
}.

Definition set_board_ref (v : loc) (s : session) : session :=
  mkSession v (game_over s) (turn s) (history s) (last_move_msg s)
    (status_msg s) (warning_msg s) (recommendation_msg s) (game_over_msg s)
    (game_over_color s) (ai_think_start s).
Definition set_game_over (v : bool) (s : session) : session :=
  mkSession (board_ref s) v (turn s) (history s) (last_move_msg s)
    (status_msg s) (warning_msg s) (recommendation_msg s) (game_over_msg s)
    (game_over_color s) (ai_think_start s).
Definition set_turn (v : Z) (s : session) : session :=
  mkSession (board_ref s) (game_over s) v (history s) (last_move_msg s)
    (status_msg s) (warning_msg s) (recommendation_msg s) (game_over_msg s)
    (game_over_color s) (ai_think_start s).
Definition set_history (v : list move) (s : session) : session :=
  mkSession (board_ref s) (game_over s) (turn s) v (last_move_msg s)
    (status_msg s) (warning_msg s) (recommendation_msg s) (game_over_msg s)
    (game_over_color s) (ai_think_start s).
Definition set_last_move_msg (v : string) (s : session) : session :=
  mkSession (board_ref s) (game_over s) (turn s) (history s) v
    (status_msg s) (warning_msg s) (recommendation_msg s) (game_over_msg s)
    (game_over_color s) (ai_think_start s).
Definition set_status_msg (v : string) (s : session) : session :=
  mkSession (board_ref s) (game_over s) (turn s) (history s) (last_move_msg s)
    v (warning_msg s) (recommendation_msg s) (game_over_msg s)
    (game_over_color s) (ai_think_start s).
Definition set_warning_msg (v : string) (s : session) : session :=
  mkSession (board_ref s) (game_over s) (turn s) (history s) (last_move_msg s)
    (status_msg s) v (recommendation_msg s) (game_over_msg s)
    (game_over_color s) (ai_think_start s).
Definition set_recommendation_msg (v : string) (s : session) : session :=
  mkSession (board_ref s) (game_over s) (turn s) (history s) (last_move_msg s)
    (status_msg s) (warning_msg s) v (game_over_msg s)
    (game_over_color s) (ai_think_start s).
Definition set_game_over_msg (v : string) (s : session) : session :=
  mkSession (board_ref s) (game_over s) (turn s) (history s) (last_move_msg s)
    (status_msg s) (warning_msg s) (recommendation_msg s) v
    (game_over_color s) (ai_think_start s).
Definition set_game_over_color (v : Z * Z * Z) (s : session) : session :=
  mkSession (board_ref s) (game_over s) (turn s) (history s) (last_move_msg s)
    (status_msg s) (warning_msg s) (recommendation_msg s) (game_over_msg s)
    v (ai_think_start s).
Definition set_ai_think_start (v : option Z) (s : session) : session :=
  mkSession (board_ref s) (game_over s) (turn s) (history s) (last_move_msg s)
    (status_msg s) (warning_msg s) (recommendation_msg s) (game_over_msg s)
    (game_over_color s) v.

(** [history.pop()] on a list that is not empty: the last entry and the
    entries before it. *)
Definition list_pop {A} (l : list A) : option (A * list A) :=
  match last l with
  | Some x => Some (x, removelast l)
  | None => None
  end.

(** The events the loop looks at; [now] readings of
    [pygame.time.get_ticks()] are passed to the handlers that ask the
    clock. Drawing ([update_display] and the preview disc) changes none of
    the variables and is left out. *)
Inductive event : Type :=
  | QUIT
  | MOUSEMOTION (pos : Z * Z)
  | MOUSEBUTTONDOWN (button : Z) (pos : Z * Z)
  | OTHER_EVENT.

(** The loop goes on with new values of the variables, or [sys.exit()] was
    called. *)
Inductive outcome : Type :=
  | Running (s : session)
  | Exited.

(** The state at the start of [run_game]. *)
Definition start_session : St session :=
  l ← create_board;
  mret (mkSession l false PLAYER [] "No moves yet."
          ("Waiting for " +:+ nl +:+ "player's turn...") "" "" ""
          TEXT_LIGHT None).

(** A click on "Play again" when the game is over. *)
Definition play_again (s : session) : St session :=
  l ← create_board;
  let s := set_board_ref l s in
  let s := set_history [] s in
  let s := set_turn PLAYER s in
  let s := set_game_over false s in
  let s := set_last_move_msg "No moves yet." s in
  let s := set_status_msg ("Waiting for " +:+ nl +:+ "player's turn...") s in
  let s := set_warning_msg "" s in
  let s := set_recommendation_msg "" s in
  let s := set_game_over_msg "" s in
  let s := set_game_over_color TEXT_LIGHT s in
  mret s.

(** A click on "Undo move". *)
Definition undo (now : Z) (s : session) : St session :=
  match list_pop (history s) with
  | Some ((col, row, piece), rest) =>
      let s := set_history rest s in
      setitem (board_ref s) row col EMPTY;;
      let s := set_last_move_msg
                 ("Undid move at " +:+ nl +:+ "column " +:+ pretty (col + 1)%nat) s in
      let s := set_status_msg ("Previous move has " +:+ nl +:+ "been undone.") s in
      let s := set_turn (if piece =? PLAYER_PIECE then PLAYER else AI) s in
      let s := set_ai_think_start
                 (if turn s =? PLAYER then None else Some now) s in
      let s := set_game_over false s in
      mret s
  | None => mret (set_warning_msg "Nothing to undo." s)
  end.

(** A click on "Restart". *)
Definition restart (s : session) : St session :=
  l ← create_board;
  let s := set_board_ref l s in
  let s := set_history [] s in
  let s := set_turn PLAYER s in
  let s := set_game_over false s in
  let s := set_last_move_msg "No moves yet." s in
  let s := set_status_msg "Game restarted. Your turn." s in
  let s := set_warning_msg "" s in
  let s := set_recommendation_msg "" s in
  let s := set_game_over_msg "" s in
  let s := set_game_over_color TEXT_LIGHT s in
  let s := set_ai_think_start None s in
  mret s.

(** A click on "Request Solution". *)
Definition solution (s : session) : St session :=
  if game_over s
  then mret (set_warning_msg "Game over. Restart to request a move." s)
  else
    res ← get_recommended_move (board_ref s);
    match res.1 with
    | Some _ =>
        let s := set_recommendation_msg
                   ("Recommended move:" +:+ nl +:+ res.2) s in
        mret (set_status_msg "" s)
    | None => mret (set_warning_msg res.2 s)
    end.

(** A click at abscissa [mouse_x] when it is the player's turn and no
    button was hit. The column is [int(math.floor((mouse_x - PANEL_WIDTH) /
    SQUARESIZE))], computed only for [mouse_x] between the two bounds, where
    the quotient is not negative and the floating-point division is exact
    enough for [floor]. *)
Definition player_click (now : Z) (mouse_x : Z) (s : session) : St session :=
  if (mouse_x <? PANEL_WIDTH) || (PANEL_WIDTH + BOARD_WIDTH <? mouse_x)
  then mret s
  else
    let col := Z.to_nat ((mouse_x - PANEL_WIDTH) / SQUARESIZE) in
    b ← deref (board_ref s);
    valid ← lift (is_valid_location b col);
    if (valid : bool) then
      row ← drop_in (board_ref s) col PLAYER_PIECE;
      let s := set_history (history s ++ [(col, row, PLAYER_PIECE)]) s in
      let s := set_last_move_msg
                 ("Player dropped at" +:+ nl +:+ "column " +:+ pretty (col + 1)%nat) s in
      b ← deref (board_ref s);
      won ← lift (winning_move b PLAYER_PIECE);
      if (won : bool) then
        let s := set_status_msg "Player wins!" s in
        let s := set_game_over_msg "Player wins!" s in
        let s := set_game_over_color RED s in
        mret (set_game_over true s)
      else
        valid_locations ← lift (get_valid_locations b);
        if (length valid_locations =? 0)%nat then
          let s := set_status_msg "It's a draw." s in
          let s := set_game_over_msg "Draw Game!" s in
          let s := set_game_over_color TEXT_LIGHT s in
          mret (set_game_over true s)
        else
          let s := set_status_msg "Bot is thinking..." s in
          let s := set_turn AI s in
          mret (set_ai_think_start (Some now) s)
    else
      let s := set_warning_msg
                 ("Column " +:+ pretty (col + 1)%nat +:+ " is full.") s in
      mret (set_status_msg ("Waiting for" +:+ nl +:+ "player's turn...") s).

(** A press of the left mouse button at [pos]. *)
Definition on_click (now : Z) (pos : Z * Z) (s : session) : St outcome :=
  let s := set_warning_msg "" s in
  let s := set_recommendation_msg "" s in
  if game_over s then
    if collidepoint play_again_rect pos then
      s ← play_again s; mret (Running s)
    else if collidepoint exit_rect pos then mret Exited
    else mret (Running s)
  else if collidepoint undo_rect pos then
    s ← undo now s; mret (Running s)
  else if collidepoint restart_rect pos then
    s ← restart s; mret (Running s)
  else if collidepoint solution_rect pos then
    s ← solution s; mret (Running s)
  else if game_over s then
    mret (Running (set_warning_msg "Game finished. Restart or undo." s))
  else if turn s =? PLAYER then
    s ← player_click now pos.1 s; mret (Running s)
  else mret (Running s).

Definition handle_event (now : Z) (e : event) (s : session) : St outcome :=
  match e with
  | QUIT => mret Exited
  | MOUSEMOTION _ => mret (Running s)
  | MOUSEBUTTONDOWN button pos =>
      if button =? 1 then on_click now pos s else mret (Running s)
  | OTHER_EVENT => mret (Running s)
  end.

(** [for event in pygame.event.get(): ...], each event with the reading
    of the clock its handler would get. *)
Fixpoint handle_events (events : list (Z * event)) (s : session) : St outcome :=
  match events with
  | [] => mret (Running s)
  | (now, e) :: events' =>
      o ← handle_event now e s;
      match o with
      | Running s' => handle_events events' s'
      | Exited => mret Exited
      end
  end.

(** The bot's part of an iteration; [now1] and [now2] are the readings of
    the clock where the source asks for them. *)
Definition bot_turn (now1 now2 : Z) (s : session) : St session :=
  if (turn s =? AI) && negb (game_over s) then
    let start := match ai_think_start s with
                 | None => now1
                 | Some t => t
                 end in
    let s := set_ai_think_start (Some start) s in
    let elapsed := now2 - start in
    if elapsed <? 2000 then mret s
    else
      let s := set_status_msg "Bot is thinking..." s in
      copy ← ndarray_copy (board_ref s);
      best ← pick_best_move copy AI_PIECE;
      match best.1 with
      | None =>
          let s := set_status_msg "No valid moves left." s in
          let s := set_game_over_msg "Draw Game!" s in
          let s := set_game_over_color TEXT_LIGHT s in
          let s := set_game_over true s in
          mret (set_ai_think_start None s)
      | Some col =>
          b ← deref (board_ref s);
          valid ← lift (is_valid_location b col);
          if (valid : bool) then
            row ← drop_in (board_ref s) col AI_PIECE;
            let s := set_history (history s ++ [(col, row, AI_PIECE)]) s in
            let s := set_last_move_msg
                       ("Bot dropped at" +:+ nl +:+ "column " +:+ pretty (col + 1)%nat) s in
            b ← deref (board_ref s);
            won ← lift (winning_move b AI_PIECE);
            if (won : bool) then
              let s := set_status_msg "Bot wins!" s in
              let s := set_game_over_msg "Bot wins!" s in
              let s := set_game_over_color YELLOW s in
              mret (set_game_over true s)
            else
              valid_locations ← lift (get_valid_locations b);
              if (length valid_locations =? 0)%nat then
                let s := set_status_msg "It's a draw." s in
                let s := set_game_over_msg "Draw Game!" s in
                let s := set_game_over_color TEXT_LIGHT s in
                mret (set_game_over true s)
              else
                let s := set_status_msg
                           ("Waiting for " +:+ nl +:+ "player's turn...") s in
                let s := set_turn PLAYER s in
                mret (set_ai_think_start None s)
          else
            let s := set_warning_msg "Bot attempted an invalid move." s in
            let s := set_status_msg "Restart to continue." s in
            let s := set_game_over_msg "Invalid move" s in
            let s := set_game_over_color WARNING_COLOR s in
            let s := set_game_over true s in
            mret (set_ai_think_start None s)
      end
  else mret s.

(** One turn of [while True]: the pending events, then the bot. *)
Definition loop_iteration (input : list (Z * event) * Z * Z) (s : session)
    : St outcome :=
  let '(events, now1, now2) := input in
  o ← handle_events events s;
  match o with
  | Running s' => s'' ← bot_turn now1 now2 s'; mret (Running s'')
  | Exited => mret Exited
  end.

Fixpoint game_loop (inputs : list (list (Z * event) * Z * Z)) (s : session)
    : St outcome :=
  match inputs with
  | [] => mret (Running s)
  | input :: inputs' =>
      o ← loop_iteration input s;
      match o with
      | Running s' => game_loop inputs' s'
      | Exited => mret Exited
      end
  end.

(** [run_game] over the iterations for which input is given. *)
Definition run_game (inputs : list (list (Z * event) * Z * Z)) : St outcome :=
  s ← start_session; game_loop inputs s.

(** [is_terminal_node] on a board of the right shape. *)
Definition terminal (b : board) : bool :=
  wins b PLAYER_PIECE ||
  (wins b AI_PIECE || (length (valid_columns b) =? 0)%nat).

(** The piece of move number [n] of a game the player opens. *)
Definition mover (n : nat) : Z :=
  if Nat.even n then PLAYER_PIECE else AI_PIECE.

(** The boards a history leads to from the empty board: each entry is a
    drop on a board that is not terminal, in a valid column, at the row
    [get_next_open_row] gives; the sides alternate, and the bot's drops are
    in the column [pick_best_move] selects. *)
Inductive replays : list move → board → Prop :=
  | replays_nil : replays [] (zeros ROW_COUNT COLUMN_COUNT)
  | replays_snoc hs b col r :
      replays hs b →
      terminal b = false →
      col ∈ valid_columns b →
      get_next_open_row b col = Ret (Some r) →
      (Nat.even (length hs) = false →
         ∃ sc, best_move b AI_PIECE = Ret (Some col, sc)) →
      replays (hs ++ [(col, Some r, mover (length hs))])
        (place b r col (mover (length hs))).

(** What every state of the loop satisfies. *)
Definition session_ok (h : heap) (s : session) : Prop :=
  ∃ b, h !! board_ref s = Some b ∧ replays (history s) b ∧
       game_over s = terminal b ∧
       turn s = (if xorb (Nat.even (length (history s))) (game_over s)
                 then PLAYER else AI).

(** The states an outcome may carry satisfy the invariant. *)
Definition outcome_ok (h : heap) (o : outcome) : Prop :=
  match o with
  | Running s => session_ok h s
  | Exited => True
  end.

(** A click inside the window, or any other event. *)
Definition in_window (e : event) : Prop :=
  match e with
  | MOUSEBUTTONDOWN _ pos => pos.1 < WINDOW_WIDTH
  | _ => True
  end.

(** The clicks of an iteration are inside the window. *)
Definition input_in_window (input : list (Z * event) * Z * Z) : Prop :=
  Forall (λ ne, in_window ne.2) input.1.1.

(** The board and the variables at the start of a game. *)
Definition new_heap : heap := {[1%positive := zeros ROW_COUNT COLUMN_COUNT]}.

Definition new_session : session :=
  mkSession 1%positive false PLAYER [] "No moves yet."
    ("Waiting for " +:+ nl +:+ "player's turn...") "" "" "" TEXT_LIGHT None.

(** After the player's first click, on the middle column. *)
Definition opening_board : board :=
  place (zeros ROW_COUNT COLUMN_COUNT) 0 3 PLAYER_PIECE.

Definition opening_heap : heap := {[1%positive := opening_board]}.

Definition opening_session : session :=
  mkSession 1%positive false AI [(3%nat, Some 0%nat, PLAYER_PIECE)]
    ("Player dropped at" +:+ nl +:+ "column 4") "Bot is thinking..." "" "" ""
    TEXT_LIGHT (Some 0).

(** After the bot's answer, on the same column. *)
Definition reply_board : board := place opening_board 1 3 AI_PIECE.

Definition reply_heap : heap := {[1%positive := reply_board]}.

Definition reply_session : session :=
  mkSession 1%positive false PLAYER
    [(3%nat, Some 0%nat, PLAYER_PIECE); (3%nat, Some 1%nat, AI_PIECE)]
    ("Bot dropped at" +:+ nl +:+ "column 4")
    ("Waiting for " +:+ nl +:+ "player's turn...") "" "" "" TEXT_LIGHT None.

(** Two turns of the loop: a click on the middle column, and the bot's
    answer two seconds later. *)
Definition two_turns : list (list (Z * event) * Z * Z) :=
  [ ([(0, MOUSEBUTTONDOWN 1 (670, 300))], 10, 10);
    ([(1000, MOUSEMOTION (700, 300))], 2010, 2010) ].

(** ** The score as a sum over windows *)

(** The four cells of the windows that start at [(r, c)]: along the row,
    along the column, and along the two diagonals (the falling one read
    from its upper end, at row [r + 3]). *)
Definition row_window (b : board) (r c : nat) : list Z :=
  [cell b r c; cell b r (c + 1); cell b r (c + 2); cell b r (c + 3)].

Definition column_window (b : board) (r c : nat) : list Z :=
  [cell b r c; cell b (r + 1) c; cell b (r + 2) c; cell b (r + 3) c].

Definition rising_window (b : board) (r c : nat) : list Z :=
  [cell b r c; cell b (r + 1) (c + 1); cell b (r + 2) (c + 2);
   cell b (r + 3) (c + 3)].

Definition falling_window (b : board) (r c : nat) : list Z :=
  [cell b (r + 3) c; cell b (r + 2) (c + 1); cell b (r + 1) (c + 2);
   cell b r (c + 3)].

Definition center_column (b : board) : list Z :=
  (λ r, cell b r (COLUMN_COUNT / 2)) <$> seq 0 ROW_COUNT.

(** The sum of [f r c] over the rows [rs] and the columns [cs]. *)
Definition sum_over (rs cs : list nat) (f : nat → nat → Z) : Z :=
  foldr (λ r acc, foldr (λ c acc, f r c + acc) acc cs) 0 rs.

(** The center bonus and the scores of the 24 + 21 + 12 + 12 windows. *)
Definition position_score (b : board) (piece : Z) : Z :=
  count (center_column b) piece * 3
  + sum_over (seq 0 ROW_COUNT) (seq 0 (COLUMN_COUNT - 3))
      (λ r c, evaluate_window (row_window b r c) piece)
  + sum_over (seq 0 (ROW_COUNT - 3)) (seq 0 COLUMN_COUNT)
      (λ r c, evaluate_window (column_window b r c) piece)
  + sum_over (seq 0 (ROW_COUNT - 3)) (seq 0 (COLUMN_COUNT - 3))
      (λ r c, evaluate_window (rising_window b r c) piece)
  + sum_over (seq 0 (ROW_COUNT - 3)) (seq 0 (COLUMN_COUNT - 3))
      (λ r c, evaluate_window (falling_window b r c) piece).

(** ** Drawing the board *)

Definition BLUE : Z * Z * Z := (0, 0, 255).
Definition BLACK : Z * Z * Z := (0, 0, 0).

(** [int(SQUARESIZE / 2 - 5)]; [SQUARESIZE] is even, so that the halves of
    the source, floating-point numbers passed through [int], are whole. *)
Definition RADIUS : Z := SQUARESIZE / 2 - 5.

(** The calls [draw_board] makes on [screen]:
    [pygame.draw.rect(screen, color, rect)] and
    [pygame.draw.circle(screen, color, center, radius)]. *)
Inductive shape : Type :=
  | DrawRect (color : Z * Z * Z) (rect : Z * Z * Z * Z)
  | DrawCircle (color : Z * Z * Z) (center : Z * Z) (radius : Z).

(** [draw_board], as the list of its calls in the order they are made. *)
Definition draw_board (b : board) : exc (list shape) :=
  screen ← for_fold (λ screen c,
      for_fold (λ screen r,
          Ret (screen ++
            [DrawRect BLUE
               (PANEL_WIDTH + Z.of_nat c * SQUARESIZE,
                Z.of_nat r * SQUARESIZE + SQUARESIZE, SQUARESIZE, SQUARESIZE);
             DrawCircle BLACK
               (PANEL_WIDTH + Z.of_nat c * SQUARESIZE + SQUARESIZE / 2,
                Z.of_nat r * SQUARESIZE + SQUARESIZE + SQUARESIZE / 2)
               RADIUS]))
        (seq 0 ROW_COUNT) screen)
    (seq 0 COLUMN_COUNT) [];
  for_fold (λ screen c,
      for_fold (λ screen r,
          v ← getitem b r c;
          if v =? PLAYER_PIECE then
            Ret (screen ++
              [DrawCircle RED
                 (PANEL_WIDTH + Z.of_nat c * SQUARESIZE + SQUARESIZE / 2,
                  WINDOW_HEIGHT - (Z.of_nat r * SQUARESIZE + SQUARESIZE / 2))
                 RADIUS])
          else
            v ← getitem b r c;
            if v =? AI_PIECE then
              Ret (screen ++
                [DrawCircle YELLOW
                   (PANEL_WIDTH + Z.of_nat c * SQUARESIZE + SQUARESIZE / 2,
                    WINDOW_HEIGHT - (Z.of_nat r * SQUARESIZE + SQUARESIZE / 2))
                   RADIUS])
            else Ret screen)
        (seq 0 ROW_COUNT) screen)
    (seq 0 COLUMN_COUNT) screen.

(** The center of the disc of the cell [(r, c)]. *)
Definition disc_center (r c : nat) : Z * Z :=
  (PANEL_WIDTH + Z.of_nat c * SQUARESIZE + SQUARESIZE / 2,
   WINDOW_HEIGHT - (Z.of_nat r * SQUARESIZE + SQUARESIZE / 2)).

(** The two calls of the first pair of loops for the square [(r, c)] of
    the screen, and the call of the second pair for the cell [(r, c)]. *)
Definition square (c r : nat) : list shape :=
  [DrawRect BLUE
     (PANEL_WIDTH + Z.of_nat c * SQUARESIZE,
      Z.of_nat r * SQUARESIZE + SQUARESIZE, SQUARESIZE, SQUARESIZE);
   DrawCircle BLACK
     (PANEL_WIDTH + Z.of_nat c * SQUARESIZE + SQUARESIZE / 2,
      Z.of_nat r * SQUARESIZE + SQUARESIZE + SQUARESIZE / 2)
     RADIUS].

Definition disc (b : board) (c r : nat) : list shape :=
  if cell b r c =? PLAYER_PIECE then [DrawCircle RED (disc_center r c) RADIUS]
  else if cell b r c =? AI_PIECE then [DrawCircle YELLOW (disc_center r c) RADIUS]
  else [].

(** ** Loops that do not raise *)

Section loops.
Context {A : Type}.
Implicit Types (l : list A).

Lemma bind_Ret {B} (a : A) (f : A → exc B) : Ret a ≫= f = f a.
Proof. done. Qed.

Lemma py_and_Ret (x y : bool) : py_and (Ret x) (Ret y) = Ret (x && y).
Proof. by destruct x. Qed.

Lemma py_or_Ret (x y : bool) : py_or (Ret x) (Ret y) = Ret (x || y).
Proof. by destruct x. Qed.

Lemma for_any_Ret (f : A → exc bool) (g : A → bool) l :
  (∀ x, x ∈ l → f x = Ret (g x)) → for_any f l = Ret (existsb g l).
Proof.
  induction l as [|x l IH]; intros Hf; [done|].
  cbn. rewrite (Hf x) by left. cbn.
  destruct (g x); [done|]. apply IH. intros y Hy. apply Hf. by right.
Qed.

Lemma for_filter_Ret (f : A → exc bool) (g : A → bool) l :
  (∀ x, x ∈ l → f x = Ret (g x)) → for_filter f l = Ret (List.filter g l).
Proof.
  induction l as [|x l IH]; intros Hf; [done|].
  cbn. rewrite (Hf x) by left. cbn.
  rewrite IH; [by destruct (g x)|]. intros y Hy. apply Hf. by right.
Qed.

Lemma for_fold_Ret {S} (f : S → A → exc S) (g : S → A → S) l acc :
  (∀ s x, x ∈ l → f s x = Ret (g s x)) →
  for_fold f l acc = Ret (foldl g acc l).
Proof.
  revert acc. induction l as [|x l IH]; intros acc Hf; [done|].
  cbn. rewrite (Hf acc x) by left. cbn.
  apply IH. intros s y Hy. apply Hf. by right.
Qed.
End loops.

(** The first index of a range at which a test succeeds. *)
Lemma for_find_seq (f : nat → exc bool) (g : nat → bool) (start n : nat) :
  (∀ r, (start ≤ r < start + n)%nat → f r = Ret (g r)) →
  ∃ res, for_find f (seq start n) = Ret res ∧
    match res with
    | Some r => (start ≤ r < start + n)%nat ∧ g r = true ∧
                ∀ r', (start ≤ r' < r)%nat → g r' = false
    | None => ∀ r', (start ≤ r' < start + n)%nat → g r' = false
    end.
Proof.
  revert start. induction n as [|n IH]; intros start Hf.
  - exists None. split; [done|]. intros; lia.
  - cbn. rewrite (Hf start) by lia. cbn. destruct (g start) eqn:Hg.
    + exists (Some start). split; [done|].
      split; [lia|]. split; [done|]. intros; lia.
    + destruct (IH (S start)) as (res & -> & Hres); [intros; apply Hf; lia|].
      exists res. split; [done|]. destruct res as [r|].
      * destruct Hres as (? & ? & Hlow).
        split; [lia|]. split; [done|].
        intros r' ?. destruct (decide (r' = start)) as [->|]; [done|].
        apply Hlow. lia.
      * intros r' ?. destruct (decide (r' = start)) as [->|]; [done|].
        apply Hres. lia.
Qed.

(** ** Cells of a well-shaped board *)

Lemma board_shape_row b r :
  board_shape b → (r < ROW_COUNT)%nat →
  ∃ cells, b !! r = Some cells ∧ length cells = COLUMN_COUNT.
Proof.
  intros [Hlen Hrows] Hr.
  destruct (lookup_lt_is_Some_2 b r) as [cells Hcells]; [lia|].
  exists cells. split; [done|].
  by eapply (proj1 (Forall_lookup _ _) Hrows).
Qed.

Lemma getitem_cell b r c :
  board_shape b → (r < ROW_COUNT)%nat → (c < COLUMN_COUNT)%nat →
  getitem b r c = Ret (cell b r c).
Proof.
  intros Hb Hr Hc. destruct (board_shape_row b r Hb Hr) as (cells & Hcells & Hlen).
  destruct (lookup_lt_is_Some_2 cells c) as [v Hv]; [lia|].
  unfold cell, getitem. by rewrite Hcells, Hv.
Qed.

Lemma getitem_column_bound b r c v :
  board_shape b → getitem b r c = Ret v → (r < ROW_COUNT ∧ c < COLUMN_COUNT)%nat.
Proof.
  intros [Hlen Hrows]. unfold getitem.
  destruct (b !! r) as [cells|] eqn:Hcells; [|done].
  destruct (cells !! c) as [w|] eqn:Hw; [|done]. intros _.
  apply lookup_lt_Some in Hcells as Hr. apply lookup_lt_Some in Hw.
  rewrite (proj1 (Forall_lookup _ _) Hrows _ _ Hcells) in Hw. lia.
Qed.

Lemma board_shape_spec b : board_shapeb b = true ↔ board_shape b.
Proof.
  unfold board_shapeb, board_shape.
  rewrite andb_true_iff, Nat.eqb_eq, forallb_forall, Forall_forall.
  apply and_iff_compat_l. split; intros H x Hx.
  - apply Nat.eqb_eq, H. by apply list_elem_of_In.
  - apply Nat.eqb_eq, H. by apply list_elem_of_In.
Qed.

Lemma holds_cell b piece r c :
  board_shape b → (r < ROW_COUNT)%nat → (c < COLUMN_COUNT)%nat →
  holds b piece r c = Ret (cell b r c =? piece).
Proof. intros. unfold holds. by rewrite getitem_cell. Qed.

Lemma is_valid_location_cell b col :
  board_shape b → (col < COLUMN_COUNT)%nat →
  is_valid_location b col = Ret (cell b (ROW_COUNT - 1) col =? EMPTY).
Proof.
  intros. unfold is_valid_location.
  by rewrite getitem_cell by (done || (unfold ROW_COUNT; lia)).
Qed.

Lemma getitem_EMPTY_cell b r c :
  board_shape b → (r < ROW_COUNT)%nat → (c < COLUMN_COUNT)%nat →
  getitem b r c = Ret EMPTY ↔ cell b r c = EMPTY.
Proof.
  intros. rewrite getitem_cell by done. split; [by intros [= ->]|by intros ->].
Qed.

(** ** Win detection on a well-shaped board *)

Section win_detection.
Context (b : board) (piece : Z) (Hb : board_shape b).

Local Ltac scan :=
  apply for_any_Ret; intros c Hc; apply for_any_Ret; intros r Hr;
  apply elem_of_seq in Hc; apply elem_of_seq in Hr;
  unfold ROW_COUNT, COLUMN_COUNT in Hc, Hr;
  rewrite !holds_cell by (done || (unfold ROW_COUNT, COLUMN_COUNT; lia));
  by rewrite !py_and_Ret.

Lemma winning_move_horizontal_Ret :
  winning_move_horizontal b piece = Ret (wins_horizontal b piece).
Proof. scan. Qed.

Lemma winning_move_vertical_Ret :
  winning_move_vertical b piece = Ret (wins_vertical b piece).
Proof. scan. Qed.

Lemma winning_move_rising_Ret :
  winning_move_rising b piece = Ret (wins_rising b piece).
Proof. scan. Qed.

Lemma winning_move_falling_Ret :
  winning_move_falling b piece = Ret (wins_falling b piece).
Proof. scan. Qed.

Lemma winning_move_Ret : winning_move b piece = Ret (wins b piece).
Proof.
  unfold winning_move.
  rewrite winning_move_horizontal_Ret, winning_move_vertical_Ret,
    winning_move_rising_Ret, winning_move_falling_Ret.
  by rewrite !py_or_Ret.
Qed.

Lemma get_valid_locations_Ret : get_valid_locations b = Ret (valid_columns b).
Proof.
  apply for_filter_Ret. intros c Hc. apply elem_of_seq in Hc.
  apply is_valid_location_cell; [done|lia].
Qed.
End win_detection.

Lemma any_window_true cs cn rs rn (w : nat → nat → bool) :
  any_window (seq cs cn) (seq rs rn) w = true ↔
  ∃ r c, (rs ≤ r < rs + rn)%nat ∧ (cs ≤ c < cs + cn)%nat ∧ w r c = true.
Proof.
  unfold any_window. rewrite existsb_exists. split.
  - intros (c & Hc & Hw). apply existsb_exists in Hw as (r & Hr & Hw).
    apply in_seq in Hc, Hr. eauto.
  - intros (r & c & Hr & Hc & Hw). exists c. split; [by apply in_seq|].
    apply existsb_exists. exists r. split; [by apply in_seq|done].
Qed.

Lemma line_true b piece r0 c0 r1 c1 r2 c2 r3 c3 :
  line b piece r0 c0 r1 c1 r2 c2 r3 c3 = true ↔
  cell b r0 c0 = piece ∧ cell b r1 c1 = piece ∧
  cell b r2 c2 = piece ∧ cell b r3 c3 = piece.
Proof. unfold line. rewrite !andb_true_iff, !Z.eqb_eq. tauto. Qed.

(** ** The mirrored board *)

Lemma mirror_board_shape b : board_shape b → board_shape (mirror_board b).
Proof.
  intros [Hlen Hrows]. split.
  - unfold mirror_board. by rewrite length_fmap.
  - unfold mirror_board. apply Forall_fmap. eapply Forall_impl; [done|].
    intros cells Hcells. cbn. by rewrite length_reverse.
Qed.

Lemma getitem_mirror b r c :
  board_shape b → (c < COLUMN_COUNT)%nat →
  getitem (mirror_board b) r c = getitem b r (COLUMN_COUNT - 1 - c).
Proof.
  intros [Hlen Hrows] Hc. unfold getitem, mirror_board.
  rewrite list_lookup_fmap. destruct (b !! r) as [cells|] eqn:Hcells; [|done].
  cbn. pose proof (proj1 (Forall_lookup _ _) Hrows _ _ Hcells) as Hw. cbn in Hw.
  rewrite reverse_lookup by lia.
  by replace (length cells - S c)%nat with (COLUMN_COUNT - 1 - c)%nat by lia.
Qed.

Lemma cell_mirror b r c :
  board_shape b → (c < COLUMN_COUNT)%nat →
  cell (mirror_board b) r c = cell b r (COLUMN_COUNT - 1 - c).
Proof. intros. unfold cell. by rewrite getitem_mirror. Qed.

Section mirror.
Context (b : board) (piece : Z) (Hb : board_shape b).

(** Find the hypothesis that speaks of the cell of the goal. *)
Local Ltac same_cell :=
  match goal with
  | H : cell b ?r' ?c' = piece |- cell b ?r ?c = piece =>
      replace r with r' by (unfold COLUMN_COUNT; lia);
      replace c with c' by (unfold COLUMN_COUNT; lia); exact H
  end.

Local Ltac reflect_windows :=
  apply eq_true_iff_eq; unfold ROW_COUNT, COLUMN_COUNT;
  rewrite !any_window_true; setoid_rewrite line_true.

Local Ltac unmirror :=
  rewrite ?cell_mirror by (done || (unfold COLUMN_COUNT; lia)).

Local Ltac unmirror_in H :=
  rewrite ?cell_mirror in H by (done || (unfold COLUMN_COUNT; lia)).

Lemma wins_horizontal_mirror :
  wins_horizontal (mirror_board b) piece = wins_horizontal b piece.
Proof.
  unfold wins_horizontal. reflect_windows.
  split; intros (r & c & Hr & Hc & H0 & H1 & H2 & H3);
    exists r, (3 - c)%nat; (split; [lia|]); (split; [lia|]).
  - unmirror_in H0. unmirror_in H1. unmirror_in H2. unmirror_in H3.
    repeat split; same_cell.
  - unmirror. repeat split; same_cell.
Qed.

Lemma wins_vertical_mirror :
  wins_vertical (mirror_board b) piece = wins_vertical b piece.
Proof.
  unfold wins_vertical. reflect_windows.
  split; intros (r & c & Hr & Hc & H0 & H1 & H2 & H3);
    exists r, (6 - c)%nat; (split; [lia|]); (split; [lia|]).
  - unmirror_in H0. unmirror_in H1. unmirror_in H2. unmirror_in H3.
    repeat split; same_cell.
  - unmirror. repeat split; same_cell.
Qed.

Lemma wins_rising_mirror :
  wins_rising (mirror_board b) piece = wins_falling b piece.
Proof.
  unfold wins_rising, wins_falling. reflect_windows.
  split; intros (r & c & Hr & Hc & H0 & H1 & H2 & H3).
  - exists (r + 3)%nat, (3 - c)%nat. (split; [lia|]); (split; [lia|]).
    unmirror_in H0. unmirror_in H1. unmirror_in H2. unmirror_in H3.
    repeat split; same_cell.
  - exists (r - 3)%nat, (3 - c)%nat. (split; [lia|]); (split; [lia|]).
    unmirror. repeat split; same_cell.
Qed.

Lemma wins_falling_mirror :
  wins_falling (mirror_board b) piece = wins_rising b piece.
Proof.
  unfold wins_rising, wins_falling. reflect_windows.
  split; intros (r & c & Hr & Hc & H0 & H1 & H2 & H3).
  - exists (r - 3)%nat, (3 - c)%nat. (split; [lia|]); (split; [lia|]).
    unmirror_in H0. unmirror_in H1. unmirror_in H2. unmirror_in H3.
    repeat split; same_cell.
  - exists (r + 3)%nat, (3 - c)%nat. (split; [lia|]); (split; [lia|]).
    unmirror. repeat split; same_cell.
Qed.
End mirror.

(** ** Running computations on the heap *)

Section run.
Context {A B : Type}.
Implicit Types (h : heap) (f : A → St B).

Lemma bind_lift (m : exc A) (a : A) f h :
  m = Ret a → (lift m ≫= f) h = f a h.
Proof. by intros ->. Qed.
End run.

Lemma bind_deref {B} (l : loc) (b : board) (f : board → St B) (h : heap) :
  h !! l = Some b → (deref l ≫= f) h = f b h.
Proof. intros Hl. unfold mbind, St_bind, deref. by rewrite Hl. Qed.

Lemma fresh_loc_None (h : heap) : h !! fresh (dom h) = None.
Proof. apply not_elem_of_dom, is_fresh. Qed.

Lemma bind_ndarray_copy {B} (l : loc) (b : board) (f : loc → St B) (h : heap) :
  h !! l = Some b →
  (ndarray_copy l ≫= f) h = f (fresh (dom h)) (<[fresh (dom h) := b]> h).
Proof.
  intros Hl. unfold ndarray_copy, mbind, St_bind, deref, alloc. by rewrite Hl.
Qed.

Lemma setitem_run (l : loc) (b : board) (cells : list Z) (r c : nat) (v : Z)
    (h : heap) :
  h !! l = Some b → int64_ok v = true →
  b !! r = Some cells → (c < length cells)%nat →
  setitem l (Some r) c v h = Ret ((), <[l := place b r c v]> h).
Proof.
  intros Hl Hv Hr Hc. unfold setitem. rewrite (bind_deref _ _ _ _ Hl), Hv.
  cbn. rewrite Hr. rewrite decide_True by done.
  unfold store, place. by rewrite Hr.
Qed.

Lemma bind_setitem {B} (l : loc) (b : board) (cells : list Z) (r c : nat)
    (v : Z) (f : unit → St B) (h : heap) :
  h !! l = Some b → int64_ok v = true →
  b !! r = Some cells → (c < length cells)%nat →
  (setitem l (Some r) c v ≫= f) h = f () (<[l := place b r c v]> h).
Proof.
  intros Hl Hv Hr Hc. unfold mbind, St_bind.
  by rewrite (setitem_run _ _ _ _ _ _ _ Hl Hv Hr Hc).
Qed.

(** ** Placing a piece *)

Lemma place_shape b r c v : board_shape b → board_shape (place b r c v).
Proof.
  intros [Hlen Hrows]. unfold place.
  destruct (b !! r) as [cells|] eqn:Hcells; [|done]. split.
  - by rewrite length_insert.
  - apply Forall_insert; [done|]. rewrite length_insert.
    by apply (proj1 (Forall_lookup _ _) Hrows _ _ Hcells).
Qed.

Lemma cell_place b r c v r' c' :
  board_shape b → (r < ROW_COUNT)%nat → (c < COLUMN_COUNT)%nat →
  cell (place b r c v) r' c' =
  if decide (r' = r ∧ c' = c) then v else cell b r' c'.
Proof.
  intros Hb Hr Hc. destruct (board_shape_row b r Hb Hr) as (cells & Hcells & Hlen).
  unfold cell, getitem, place. rewrite Hcells.
  destruct (decide (r' = r)) as [->|Hne].
  - rewrite list_lookup_insert_eq by (by eapply lookup_lt_Some).
    rewrite Hcells. destruct (decide (c' = c)) as [->|Hne].
    + rewrite list_lookup_insert_eq by lia. by rewrite decide_True.
    + rewrite list_lookup_insert_ne by done. rewrite decide_False by tauto. done.
  - rewrite list_lookup_insert_ne by done. by rewrite decide_False by tauto.
Qed.

(** Placing a value a cell already holds changes nothing. *)
Lemma place_same b r c :
  board_shape b → (r < ROW_COUNT)%nat → (c < COLUMN_COUNT)%nat →
  place b r c (cell b r c) = b.
Proof.
  intros Hb Hr Hc. destruct (board_shape_row b r Hb Hr) as (cells & Hcells & Hlen).
  destruct (lookup_lt_is_Some_2 cells c) as [v Hv]; [lia|].
  unfold place, cell, getitem. rewrite Hcells, Hv.
  by rewrite (list_insert_id cells c v), list_insert_id.
Qed.

Lemma place_place b r c v w :
  board_shape b → (r < ROW_COUNT)%nat →
  place (place b r c v) r c w = place b r c w.
Proof.
  intros Hb Hr. destruct (board_shape_row b r Hb Hr) as (cells & Hcells & Hlen).
  unfold place. rewrite Hcells.
  rewrite list_lookup_insert_eq by (by eapply lookup_lt_Some).
  by rewrite !list_insert_insert_eq.
Qed.

(** ** The scorer does not raise on a well-shaped board *)

Lemma is_Ret_bind {A B} (m : exc A) (f : A → exc B) :
  is_Ret m → (∀ a, is_Ret (f a)) → is_Ret (m ≫= f).
Proof. intros [a ->] Hf. apply Hf. Qed.

Lemma for_fold_is_Ret {A S} (f : S → A → exc S) (l : list A) (acc : S) :
  (∀ s x, x ∈ l → is_Ret (f s x)) → is_Ret (for_fold f l acc).
Proof.
  revert acc. induction l as [|x l IH]; intros acc Hf; [by exists acc|].
  cbn. destruct (Hf acc x) as [acc' ->]; [by left|]. cbn.
  apply IH. intros s y Hy. apply Hf. by right.
Qed.

Lemma for_map_is_Ret {A B} (g : A → exc B) (l : list A) :
  (∀ x, x ∈ l → is_Ret (g x)) → is_Ret (for_map g l).
Proof.
  induction l as [|x l IH]; intros Hg; [by exists []|].
  cbn. destruct (Hg x) as [y ->]; [by left|]. cbn.
  destruct IH as [ys ->]; [intros; apply Hg; by right|]. by eexists.
Qed.

Lemma column_of_is_Ret b c :
  board_shape b → (c < COLUMN_COUNT)%nat → is_Ret (column_of b c).
Proof.
  intros [_ Hrows] Hc. apply for_map_is_Ret. intros cells Hcells.
  rewrite Forall_forall in Hrows. specialize (Hrows _ Hcells). cbn in Hrows.
  destruct (lookup_lt_is_Some_2 cells c) as [v ->]; [lia|]. by eexists.
Qed.

Lemma row_of_is_Ret b r :
  board_shape b → (r < ROW_COUNT)%nat → is_Ret (row_of b r).
Proof.
  intros Hb Hr. destruct (board_shape_row b r Hb Hr) as (cells & Hcells & _).
  unfold row_of. rewrite Hcells. by eexists.
Qed.

Lemma score_position_is_Ret b piece :
  board_shape b → is_Ret (score_position b piece).
Proof.
  intros Hb. unfold score_position.
  apply is_Ret_bind; [apply column_of_is_Ret; [done|vm_compute; lia]|].
  intros center_array.
  apply is_Ret_bind.
  { apply for_fold_is_Ret. intros s r Hr. apply elem_of_seq in Hr.
    apply is_Ret_bind; [apply row_of_is_Ret; [done|lia]|]. intros row_array.
    apply for_fold_is_Ret. intros; by eexists. }
  intros s1. apply is_Ret_bind.
  { apply for_fold_is_Ret. intros s c Hc. apply elem_of_seq in Hc.
    apply is_Ret_bind; [apply column_of_is_Ret; [done|lia]|]. intros col_array.
    apply for_fold_is_Ret. intros; by eexists. }
  intros s2. apply is_Ret_bind.
  { apply for_fold_is_Ret. intros s r Hr. apply elem_of_seq in Hr.
    apply for_fold_is_Ret. intros s' c Hc. apply elem_of_seq in Hc.
    apply is_Ret_bind; [|intros; by eexists].
    apply for_map_is_Ret. intros i Hi. apply elem_of_seq in Hi.
    unfold ROW_COUNT, COLUMN_COUNT, WINDOW_LENGTH in *.
    rewrite getitem_cell by (done || (unfold ROW_COUNT, COLUMN_COUNT; lia)).
    by eexists. }
  intros s3. apply is_Ret_bind.
  { apply for_fold_is_Ret. intros s r Hr. apply elem_of_seq in Hr.
    apply for_fold_is_Ret. intros s' c Hc. apply elem_of_seq in Hc.
    apply is_Ret_bind; [|intros; by eexists].
    apply for_map_is_Ret. intros i Hi. apply elem_of_seq in Hi.
    unfold ROW_COUNT, COLUMN_COUNT, WINDOW_LENGTH in *.
    rewrite getitem_cell by (done || (unfold ROW_COUNT, COLUMN_COUNT; lia)).
    by eexists. }
  intros s4. by eexists.
Qed.

(** ** The drop row *)

Lemma get_next_open_row_find b col :
  board_shape b → (col < COLUMN_COUNT)%nat →
  ∃ res, get_next_open_row b col = Ret res ∧
    match res with
    | Some r => (r < ROW_COUNT)%nat ∧ cell b r col = EMPTY ∧
                ∀ r', (r' < r)%nat → cell b r' col ≠ EMPTY
    | None => ∀ r', (r' < ROW_COUNT)%nat → cell b r' col ≠ EMPTY
    end.
Proof.
  intros Hb Hcol.
  destruct (for_find_seq (λ r, v ← getitem b r col; Ret (v =? EMPTY))
              (λ r, cell b r col =? EMPTY) 0 ROW_COUNT) as (res & Hres & Hspec).
  { intros r Hr. by rewrite getitem_cell by (done || lia). }
  exists res. split; [done|]. destruct res as [r|].
  - destruct Hspec as (Hr & Hv & Hlow). split; [lia|].
    split; [by apply Z.eqb_eq|]. intros r' Hr'. apply Z.eqb_neq, Hlow. lia.
  - intros r' Hr'. apply Z.eqb_neq, Hspec. lia.
Qed.

Lemma valid_columns_spec b col :
  col ∈ valid_columns b ↔
  (col < COLUMN_COUNT)%nat ∧ cell b (ROW_COUNT - 1) col = EMPTY.
Proof.
  unfold valid_columns. rewrite list_elem_of_In, filter_In, in_seq, Z.eqb_eq.
  intuition lia.
Qed.

Lemma get_next_open_row_valid b col :
  board_shape b → col ∈ valid_columns b →
  ∃ r, get_next_open_row b col = Ret (Some r) ∧
       (r < ROW_COUNT)%nat ∧ cell b r col = EMPTY.
Proof.
  intros Hb [Hcol Htop]%valid_columns_spec.
  destruct (get_next_open_row_find b col Hb Hcol) as ([r|] & Hres & Hspec).
  - exists r. tauto.
  - destruct (Hspec (ROW_COUNT - 1)%nat); [unfold ROW_COUNT; lia|done].
Qed.

Lemma simulate_is_Ret b piece col :
  board_shape b → col ∈ valid_columns b → is_Ret (simulate b piece col).
Proof.
  intros Hb Hcol. destruct (get_next_open_row_valid b col Hb Hcol) as (r & Hr & _).
  unfold simulate. rewrite Hr, bind_Ret.
  by apply score_position_is_Ret, place_shape.
Qed.

(** ** The selection loop *)

Lemma int64_ok_piece piece : is_piece piece → int64_ok piece = true.
Proof. by intros [-> | ->]. Qed.

Section selection.
Context (l : loc) (b : board) (piece : Z).
Context (Hb : board_shape b) (Hpiece : int64_ok piece = true).

Lemma pick_best_move_body_run (h : heap) best col :
  h !! l = Some b → col ∈ valid_columns b →
  ∃ s h', simulate b piece col = Ret s ∧
    pick_best_move_body l piece best col h = Ret (better best col s, h') ∧
    h ⊆ h'.
Proof.
  intros Hl Hcol.
  destruct (get_next_open_row_valid b col Hb Hcol) as (r & Hrow & Hr & _).
  destruct (board_shape_row b r Hb Hr) as (cells & Hcells & Hlen).
  apply valid_columns_spec in Hcol as [Hcol _].
  destruct (score_position_is_Ret (place b r col piece) piece) as [s Hs];
    [by apply place_shape|].
  set (l' := fresh (dom h)).
  exists s, (<[l' := place b r col piece]> h). split; [|split].
  - unfold simulate. by rewrite Hrow, bind_Ret.
  - destruct best as [best_col best_score]. unfold pick_best_move_body.
    rewrite (bind_deref _ _ _ _ Hl), (bind_lift _ _ _ _ Hrow).
    rewrite (bind_ndarray_copy _ _ _ _ Hl). fold l'. unfold drop_piece.
    rewrite (bind_setitem l' b cells r col piece)
      by (done || lia || apply lookup_insert_eq).
    rewrite insert_insert_eq.
    rewrite (bind_deref l' (place b r col piece)) by apply lookup_insert_eq.
    rewrite (bind_lift _ _ _ _ Hs). unfold better. cbn [snd].
    by destruct (exceeds s best_score).
  - apply insert_subseteq, fresh_loc_None.
Qed.

Lemma pick_best_move_loop cols :
  (∀ c, c ∈ cols → c ∈ valid_columns b) →
  ∀ (h : heap) best, h !! l = Some b →
  ∃ best' h',
    for_fold (λ best col, s ← simulate b piece col; Ret (better best col s))
      cols best = Ret best' ∧
    for_fold_St (pick_best_move_body l piece) cols best h = Ret (best', h') ∧
    h ⊆ h'.
Proof.
  induction cols as [|col cols IH]; intros Hcols h best Hl.
  - by exists best, h.
  - destruct (pick_best_move_body_run h best col Hl) as (s & h1 & Hs & Hrun & Hsub);
      [apply Hcols; by left|].
    destruct (IH (λ c Hc, Hcols c (list_elem_of_further _ _ _ Hc)) h1
                (better best col s)) as (best' & h' & Hpure & Hloop & Hsub').
    { by eapply lookup_weaken. }
    exists best', h'. split; [|split].
    + cbn [for_fold]. by rewrite Hs, bind_Ret.
    + cbn [for_fold_St]. unfold mbind, St_bind. by rewrite Hrun.
    + by etrans.
Qed.

Lemma pick_best_move_run (h : heap) :
  h !! l = Some b →
  ∃ res h', best_move b piece = Ret res ∧
    pick_best_move l piece h = Ret (res, h') ∧ h ⊆ h'.
Proof.
  intros Hl. unfold pick_best_move, best_move.
  rewrite (bind_deref _ _ _ _ Hl).
  rewrite (bind_lift _ _ _ _ (get_valid_locations_Ret b Hb)).
  destruct (valid_columns b) as [|first cols] eqn:Hvalid.
  - by exists (None, Int 0), h.
  - destruct (pick_best_move_loop (first :: cols)) with (h := h)
      (best := (first, NegInf)) as (best & h' & Hpure & Hloop & Hsub);
      [by intros c Hc; rewrite Hvalid|done|].
    exists (Some best.1, best.2), h'. split; [|split; [|done]].
    + by rewrite Hpure.
    + unfold mbind, St_bind. by rewrite Hloop.
Qed.
End selection.

(** ** The best of a list of columns *)

Lemma exceeds_trans s s' best :
  exceeds s best = true → s < s' → exceeds s' best = true.
Proof. destruct best as [|z]; cbn; [done|]. rewrite !Z.ltb_lt. lia. Qed.

Lemma exceeds_not s s' best :
  exceeds s best = false → exceeds s' best = true → s < s'.
Proof. destruct best as [|z]; cbn; [done|]. rewrite Z.ltb_ge, Z.ltb_lt. lia. Qed.

(** Folding [better] over columns leaves the start value if no score
    exceeds it, and otherwise stops on the first column of greatest score. *)
Lemma foldl_better_split (sc : nat → Z) (cols : list nat) (init : nat * score) :
  let res := foldl (λ best c, better best c (sc c)) init cols in
  (res = init ∧ ∀ c, c ∈ cols → exceeds (sc c) init.2 = false) ∨
  (∃ pre c post, cols = pre ++ c :: post ∧ res = (c, Int (sc c)) ∧
     exceeds (sc c) init.2 = true ∧
     (∀ x, x ∈ pre → sc x < sc c) ∧ (∀ x, x ∈ post → sc x ≤ sc c)).
Proof.
  induction cols as [|x cols IH] using rev_ind; cbn zeta.
  - left. split; [done|]. by intros c ?%elem_of_nil.
  - rewrite foldl_app. cbn [foldl]. cbn zeta in IH.
    destruct IH as [[-> Hnone] | (pre & c & post & -> & -> & Hc & Hpre & Hpost)].
    + unfold better. destruct (exceeds (sc x) init.2) eqn:Hx.
      * right. exists cols, x, []. split_and!; try done.
        -- intros y Hy. eapply exceeds_not; [by apply Hnone|done].
        -- by intros ? ?%elem_of_nil.
      * left. split; [done|]. intros c [Hc | ->%list_elem_of_singleton]%elem_of_app;
          [by apply Hnone|done].
    + unfold better. cbn [snd exceeds].
      destruct (sc c <? sc x) eqn:Hx; [apply Z.ltb_lt in Hx|apply Z.ltb_ge in Hx].
      * right. exists (pre ++ c :: post), x, []. split_and!; try done.
        -- by eapply exceeds_trans.
        -- intros y [Hy | [-> | Hy]%elem_of_cons]%elem_of_app.
           ++ specialize (Hpre y Hy). lia.
           ++ done.
           ++ specialize (Hpost y Hy). lia.
        -- by intros ? ?%elem_of_nil.
      * right. exists pre, c, (post ++ [x]). split_and!; try done.
        -- by rewrite <- app_assoc.
        -- intros y [Hy | ->%list_elem_of_singleton]%elem_of_app;
             [by apply Hpost|done].
Qed.

(** The columns kept from a range are in ascending order. *)
Lemma filter_seq_split (g : nat → bool) (start n : nat) pre c post :
  List.filter g (seq start n) = pre ++ c :: post →
  (∀ x, x ∈ pre → (x < c)%nat) ∧ (∀ x, x ∈ post → (c < x)%nat).
Proof.
  revert start pre. induction n as [|n IH]; intros start pre Heq.
  - by destruct pre.
  - assert (Hin : ∀ x, x ∈ List.filter g (seq (S start) n) → (start < x)%nat).
    { intros x [Hx _]%list_elem_of_In%filter_In. apply in_seq in Hx. lia. }
    cbn [seq List.filter] in Heq. destruct (g start).
    + destruct pre as [|p pre]; cbn in Heq; injection Heq as <- Heq.
      * split; [by intros ? ?%elem_of_nil|]. intros x Hx. apply Hin. by rewrite Heq.
      * destruct (IH _ _ Heq) as [Hpre Hpost]. split; [|done].
        intros x [-> | Hx]%elem_of_cons; [|by apply Hpre].
        apply Hin. rewrite Heq. apply elem_of_app. right. by left.
    + by apply (IH (S start)).
Qed.

Lemma best_move_spec b piece :
  board_shape b →
  ∃ res, best_move b piece = Ret res ∧
    match valid_columns b with
    | [] => res = (None, Int 0)
    | _ :: _ =>
        ∃ col s, res = (Some col, Int s) ∧ col ∈ valid_columns b ∧
          simulate b piece col = Ret s ∧
          (∀ c, c ∈ valid_columns b →
             ∃ s', simulate b piece c = Ret s' ∧ s' ≤ s) ∧
          (∀ c, c ∈ valid_columns b → (c < col)%nat →
             ∃ s', simulate b piece c = Ret s' ∧ s' < s)
    end.
Proof.
  intros Hb. unfold best_move.
  assert (Hsim : ∀ c, c ∈ valid_columns b →
            simulate b piece c = Ret (simulated_score b piece c)).
  { intros c Hc. unfold simulated_score.
    by destruct (simulate_is_Ret b piece c Hb Hc) as [s ->]. }
  destruct (valid_columns b) as [|first cols] eqn:Hvalid; [by eexists|].
  rewrite (for_fold_Ret _
    (λ best c, better best c (simulated_score b piece c))).
  2:{ intros best c Hc. by rewrite Hsim, bind_Ret. }
  rewrite bind_Ret. eexists. split; [done|].
  destruct (foldl_better_split (simulated_score b piece) (first :: cols)
              (first, NegInf))
    as [[_ Hnone] | (pre & c & post & Hsplit & -> & _ & Hpre & Hpost)].
  { specialize (Hnone first). cbn in Hnone. discriminate Hnone. by left. }
  assert (Hc : c ∈ first :: cols).
  { rewrite Hsplit. apply elem_of_app. right. by left. }
  exists c, (simulated_score b piece c). split_and!; try done.
  - by apply Hsim.
  - intros x Hx. exists (simulated_score b piece x). split; [by apply Hsim|].
    rewrite Hsplit in Hx.
    apply elem_of_app in Hx as [Hx | [-> | Hx]%elem_of_cons].
    + specialize (Hpre x Hx). lia.
    + done.
    + by apply Hpost.
  - intros x Hx Hlt. exists (simulated_score b piece x). split; [by apply Hsim|].
    rewrite Hsplit in Hx. unfold valid_columns in Hvalid. rewrite Hsplit in Hvalid.
    apply filter_seq_split in Hvalid as [_ Hafter].
    apply elem_of_app in Hx as [Hx | [-> | Hx]%elem_of_cons].
    + by apply Hpre.
    + lia.
    + specialize (Hafter x Hx). lia.
Qed.

Lemma bind_alloc {B} (b : board) (f : loc → St B) (h : heap) :
  (alloc b ≫= f) h = f (fresh (dom h)) (<[fresh (dom h) := b]> h).
Proof. done. Qed.

Lemma bind_drop_in {B} (l : loc) (b : board) (r col : nat) (piece : Z)
    (f : option nat → St B) (h : heap) :
  h !! l = Some b → board_shape b → int64_ok piece = true →
  get_next_open_row b col = Ret (Some r) →
  (r < ROW_COUNT)%nat → (col < COLUMN_COUNT)%nat →
  (drop_in l col piece ≫= f) h = f (Some r) (<[l := place b r col piece]> h).
Proof.
  intros Hl Hb Hpiece Hrow Hr Hcol.
  destruct (board_shape_row b r Hb Hr) as (cells & Hcells & Hlen).
  unfold drop_in, mbind at 1, St_bind at 1.
  rewrite (bind_deref _ _ _ _ Hl), (bind_lift _ _ _ _ Hrow). unfold drop_piece.
  by rewrite (bind_setitem l b cells r col piece) by (done || lia).
Qed.

Lemma is_terminal_node_Ret b :
  board_shape b →
  is_terminal_node b =
  Ret (wins b PLAYER_PIECE || (wins b AI_PIECE ||
       (length (valid_columns b) =? 0)%nat)).
Proof.
  intros Hb. unfold is_terminal_node.
  rewrite !winning_move_Ret, get_valid_locations_Ret by done.
  by rewrite bind_Ret, !py_or_Ret.
Qed.

Lemma zeros_shape : board_shape (zeros ROW_COUNT COLUMN_COUNT).
Proof. split; [done|]. by repeat constructor. Qed.

Lemma is_valid_location_true b col :
  board_shape b → is_valid_location b col = Ret true → col ∈ valid_columns b.
Proof.
  intros Hb Hvalid. unfold is_valid_location in Hvalid.
  destruct (getitem b (ROW_COUNT - 1) col) as [v|] eqn:Hget; [|done].
  apply getitem_column_bound in Hget as Hbound; [|done].
  destruct Hbound as [Hr Hc]. apply valid_columns_spec. split; [done|].
  rewrite getitem_cell in Hget by done. injection Hget as <-.
  injection Hvalid as Hv. by apply Z.eqb_eq.
Qed.

(** * The properties of the specification *)

(** ** The window heuristic *)

(** C1. On every window of four cells, each Empty or one of the two pieces,
    and for each of the two pieces, [evaluate_window] gives the value of the
    table: 100 for four of the piece, 5 for three of the piece and one
    Empty, 2 for two of the piece and two Empty, -4 for three of the
    opponent's and one Empty, and 0 for every other composition. *)
Theorem evaluate_window_table (window : list Z) (piece : Z) :
  length window = WINDOW_LENGTH → Forall is_cell window → is_piece piece →
  let n := count window piece in
  let o := count window (opponent piece) in
  let e := count window EMPTY in
  (n = 4 → evaluate_window window piece = 100) ∧
  (n = 3 ∧ e = 1 → evaluate_window window piece = 5) ∧
  (n = 2 ∧ e = 2 → evaluate_window window piece = 2) ∧
  (o = 3 ∧ e = 1 → evaluate_window window piece = -4) ∧
  (¬ (n = 4 ∨ (n = 3 ∧ e = 1) ∨ (n = 2 ∧ e = 2) ∨ (o = 3 ∧ e = 1)) →
   evaluate_window window piece = 0).
Proof.
  intros Hlen Hcells Hpiece.
  destruct window as [|w0 [|w1 [|w2 [|w3 [|]]]]]; try discriminate Hlen.
  apply Forall_cons in Hcells as [H0 Hcells].
  apply Forall_cons in Hcells as [H1 Hcells].
  apply Forall_cons in Hcells as [H2 Hcells].
  apply Forall_cons in Hcells as [H3 _].
  unfold is_cell, is_piece, EMPTY, PLAYER_PIECE, AI_PIECE in *.
  destruct Hpiece as [-> | ->];
    destruct H0 as [-> | [-> | ->]]; destruct H1 as [-> | [-> | ->]];
    destruct H2 as [-> | [-> | ->]]; destruct H3 as [-> | [-> | ->]];
    vm_compute; repeat split; intros; lia.
Qed.

Lemma evaluate_window_table_witness :
  evaluate_window [1; 1; 0; 1] PLAYER_PIECE = 5.
Proof.
  apply (evaluate_window_table [1; 1; 0; 1] PLAYER_PIECE).
  - reflexivity.
  - repeat constructor; unfold is_cell, EMPTY, PLAYER_PIECE, AI_PIECE; lia.
  - by left.
  - by vm_compute.
Defined.

(** ** The move selector *)

(** C2. [pick_best_move] returns [(None, 0)] when no column is valid.
    Otherwise it returns a valid column with the score of the position its
    drop leads to; that score is the greatest among the valid columns, and
    every valid column to the left of the returned one scores strictly
    less. *)
Theorem pick_best_move_leftmost_best (h : heap) (l : loc) (b : board) (piece : Z) :
  h !! l = Some b → board_shape b → is_piece piece →
  ∃ valid_locations best_col best_score h',
    get_valid_locations b = Ret valid_locations ∧
    pick_best_move l piece h = Ret ((best_col, best_score), h') ∧
    (valid_locations = [] → best_col = None ∧ best_score = Int 0) ∧
    (valid_locations ≠ [] →
       ∃ col s, best_col = Some col ∧ best_score = Int s ∧
         col ∈ valid_locations ∧ is_valid_location b col = Ret true ∧
         simulate b piece col = Ret s ∧
         (∀ c, c ∈ valid_locations →
            ∃ s', simulate b piece c = Ret s' ∧ s' ≤ s) ∧
         (∀ c, c ∈ valid_locations → (c < col)%nat →
            ∃ s', simulate b piece c = Ret s' ∧ s' < s)).
Proof.
  intros Hl Hb Hpiece%int64_ok_piece.
  destruct (pick_best_move_run l b piece Hb Hpiece h Hl)
    as ([best_col best_score] & h' & Hbest & Hrun & _).
  destruct (best_move_spec b piece Hb) as (res & Hres & Hspec).
  rewrite Hbest in Hres. injection Hres as <-.
  exists (valid_columns b), best_col, best_score, h'.
  split; [by apply get_valid_locations_Ret|]. split; [done|].
  destruct (valid_columns b) as [|first cols] eqn:Hvalid.
  - split; [|done]. intros _. by injection Hspec as -> ->.
  - split; [done|]. intros _.
    destruct Hspec as (col & s & [= -> ->] & Hcol & Hs & Hmax & Hleft).
    exists col, s. split_and!; try done.
    rewrite <- Hvalid in Hcol. apply valid_columns_spec in Hcol as [Hlt Htop].
    rewrite is_valid_location_cell by done. f_equal. by apply Z.eqb_eq.
Qed.

Lemma pick_best_move_leftmost_best_witness :
  ∃ valid_locations best_col best_score h',
    get_valid_locations sample_board = Ret valid_locations ∧
    pick_best_move 1%positive AI_PIECE {[1%positive := sample_board]}
      = Ret ((best_col, best_score), h') ∧
    (valid_locations = [] → best_col = None ∧ best_score = Int 0) ∧
    (valid_locations ≠ [] →
       ∃ col s, best_col = Some col ∧ best_score = Int s ∧
         col ∈ valid_locations ∧ is_valid_location sample_board col = Ret true ∧
         simulate sample_board AI_PIECE col = Ret s ∧
         (∀ c, c ∈ valid_locations →
            ∃ s', simulate sample_board AI_PIECE c = Ret s' ∧ s' ≤ s) ∧
         (∀ c, c ∈ valid_locations → (c < col)%nat →
            ∃ s', simulate sample_board AI_PIECE c = Ret s' ∧ s' < s)).
Proof.
  apply (pick_best_move_leftmost_best {[1%positive := sample_board]}
           1%positive sample_board AI_PIECE).
  - reflexivity.
  - split; [reflexivity|]. repeat constructor.
  - right. reflexivity.
Defined.

(** C3. [pick_best_move] leaves its board argument as it found it: after
    the call the array holds the same cells, as does every other array
    that was live before the call; the drops go to copies. *)
Theorem pick_best_move_isolation (h : heap) (l : loc) (b : board) (piece : Z) :
  h !! l = Some b → board_shape b → is_piece piece →
  ∃ res h',
    pick_best_move l piece h = Ret (res, h') ∧
    h' !! l = Some b ∧
    (∀ k a, h !! k = Some a → h' !! k = Some a).
Proof.
  intros Hl Hb Hpiece%int64_ok_piece.
  destruct (pick_best_move_run l b piece Hb Hpiece h Hl)
    as (res & h' & _ & Hrun & Hsub).
  exists res, h'. split; [done|].
  split; [by eapply lookup_weaken|].
  intros k a Hk. by eapply lookup_weaken.
Qed.

Lemma pick_best_move_isolation_witness :
  ∃ res h',
    pick_best_move 1%positive PLAYER_PIECE {[1%positive := sample_board]}
      = Ret (res, h') ∧
    h' !! 1%positive = Some sample_board ∧
    (∀ k a, ({[1%positive := sample_board]} : heap) !! k = Some a →
            h' !! k = Some a).
Proof.
  apply (pick_best_move_isolation {[1%positive := sample_board]}
           1%positive sample_board PLAYER_PIECE).
  - reflexivity.
  - split; [reflexivity|]. repeat constructor.
  - left. reflexivity.
Defined.

(** C4. [get_recommended_move] answers with no column exactly when the
    board is terminal, with the finished-state message; on a board that is
    not terminal it answers with the column [pick_best_move] chooses for
    the player's piece, and never with the message for no valid moves. *)
Theorem get_recommended_move_terminal (h : heap) (l : loc) (b : board) :
  h !! l = Some b → board_shape b →
  ∃ terminal res h',
    is_terminal_node b = Ret terminal ∧
    get_recommended_move l h = Ret (res, h') ∧
    (res.1 = None ↔ terminal = true) ∧
    (terminal = true →
       res = (None, "Board is already in a finished state.") ∧ h' = h) ∧
    (terminal = false →
       ∃ col best_score,
         pick_best_move l PLAYER_PIECE h = Ret ((Some col, best_score), h') ∧
         res = (Some col, drop_message col)) ∧
    res.2 ≠ "No valid moves.".
Proof.
  intros Hl Hb. pose proof (is_terminal_node_Ret b Hb) as Hterm.
  set (terminal := wins b PLAYER_PIECE || (wins b AI_PIECE ||
                     (length (valid_columns b) =? 0)%nat)) in Hterm.
  unfold get_recommended_move.
  rewrite (bind_deref _ _ _ _ Hl), (bind_lift _ _ _ _ Hterm).
  exists terminal. destruct terminal eqn:Ht.
  - exists (None, "Board is already in a finished state."), h.
    by split_and!.
  - assert (Hvalid : valid_columns b ≠ []).
    { intros Hnil. subst terminal. rewrite Hnil in Ht.
      by rewrite !orb_true_r in Ht. }
    destruct (pick_best_move_run l b PLAYER_PIECE Hb eq_refl h Hl)
      as (best & h' & Hbest & Hrun & _).
    destruct (best_move_spec b PLAYER_PIECE Hb) as (res & Hres & Hspec).
    rewrite Hbest in Hres. injection Hres as <-.
    destruct (valid_columns b) as [|first cols]; [done|].
    destruct Hspec as (col & s & -> & _).
    exists (Some col, drop_message col), h'.
    unfold mbind, St_bind. rewrite Hrun. cbn [fst snd].
    split_and!; try done.
    intros _. by exists col, (Int s).
Qed.

Lemma get_recommended_move_terminal_witness :
  ∃ terminal res h',
    is_terminal_node sample_board = Ret terminal ∧
    get_recommended_move 1%positive {[1%positive := sample_board]}
      = Ret (res, h') ∧
    (res.1 = None ↔ terminal = true) ∧
    (terminal = true →
       res = (None, "Board is already in a finished state.") ∧
       h' = {[1%positive := sample_board]}) ∧
    (terminal = false →
       ∃ col best_score,
         pick_best_move 1%positive PLAYER_PIECE {[1%positive := sample_board]}
           = Ret ((Some col, best_score), h') ∧
         res = (Some col, drop_message col)) ∧
    res.2 ≠ "No valid moves.".
Proof.
  apply (get_recommended_move_terminal {[1%positive := sample_board]}
           1%positive sample_board).
  - reflexivity.
  - split; [reflexivity|]. repeat constructor.
Defined.

(** ** Terminal boards and win detection *)

(** C5. [is_terminal_node] holds exactly when the player's piece has won,
    or the computer's piece has won, or no valid column remains. *)
Theorem is_terminal_node_iff (b : board) :
  board_shape b →
  ∃ t won_player won_ai valid_locations,
    is_terminal_node b = Ret t ∧
    winning_move b PLAYER_PIECE = Ret won_player ∧
    winning_move b AI_PIECE = Ret won_ai ∧
    get_valid_locations b = Ret valid_locations ∧
    (t = true ↔ won_player = true ∨ won_ai = true ∨ valid_locations = []).
Proof.
  intros Hb. unfold is_terminal_node.
  rewrite !winning_move_Ret, get_valid_locations_Ret by done.
  exists (wins b PLAYER_PIECE || (wins b AI_PIECE ||
            (length (valid_columns b) =? 0)%nat)),
    (wins b PLAYER_PIECE), (wins b AI_PIECE), (valid_columns b).
  split; [by rewrite bind_Ret, !py_or_Ret|]. do 3 (split; [done|]).
  rewrite !orb_true_iff, Nat.eqb_eq, length_zero_iff_nil. tauto.
Qed.

Lemma is_terminal_node_iff_witness :
  ∃ t won_player won_ai valid_locations,
    is_terminal_node sample_board = Ret t ∧
    winning_move sample_board PLAYER_PIECE = Ret won_player ∧
    winning_move sample_board AI_PIECE = Ret won_ai ∧
    get_valid_locations sample_board = Ret valid_locations ∧
    (t = true ↔ won_player = true ∨ won_ai = true ∨ valid_locations = []).
Proof.
  apply (is_terminal_node_iff sample_board).
  split; [reflexivity|]. repeat constructor.
Defined.

(** C6. Win detection is symmetric under the mirror that sends the cell
    [(r, c)] to [(r, 6 - c)]: [winning_move] answers the same on the
    mirrored board, horizontal and vertical wins are kept, and a win on a
    rising diagonal is a win on a falling diagonal of the mirrored board
    and conversely. *)
Theorem winning_move_mirror (b : board) (piece : Z) :
  board_shape b →
  (∀ r c, (r < ROW_COUNT)%nat → (c < COLUMN_COUNT)%nat →
     ∃ v, getitem b r (6 - c) = Ret v ∧ getitem (mirror_board b) r c = Ret v) ∧
  (∃ won, winning_move b piece = Ret won ∧
          winning_move (mirror_board b) piece = Ret won) ∧
  winning_move_horizontal (mirror_board b) piece = winning_move_horizontal b piece ∧
  winning_move_vertical (mirror_board b) piece = winning_move_vertical b piece ∧
  winning_move_rising (mirror_board b) piece = winning_move_falling b piece ∧
  winning_move_falling (mirror_board b) piece = winning_move_rising b piece.
Proof.
  intros Hb. pose proof (mirror_board_shape b Hb) as Hm.
  split; [|split; [|repeat split]].
  - intros r c Hr Hc. exists (cell b r (6 - c)). split.
    + apply getitem_cell; [done..|]. unfold COLUMN_COUNT in *; lia.
    + rewrite getitem_mirror by done. apply getitem_cell; [done..|].
      unfold COLUMN_COUNT in *; lia.
  - exists (wins b piece). split; [by apply winning_move_Ret|].
    rewrite winning_move_Ret by done. f_equal. unfold wins.
    rewrite wins_horizontal_mirror, wins_vertical_mirror,
      wins_rising_mirror, wins_falling_mirror by done.
    by destruct (wins_horizontal b piece), (wins_vertical b piece),
      (wins_rising b piece), (wins_falling b piece).
  - rewrite !winning_move_horizontal_Ret by done.
    by rewrite wins_horizontal_mirror.
  - rewrite !winning_move_vertical_Ret by done.
    by rewrite wins_vertical_mirror.
  - rewrite winning_move_rising_Ret, winning_move_falling_Ret by done.
    by rewrite wins_rising_mirror.
  - rewrite winning_move_rising_Ret, winning_move_falling_Ret by done.
    by rewrite wins_falling_mirror.
Qed.

Lemma winning_move_mirror_witness :
  (∀ r c, (r < ROW_COUNT)%nat → (c < COLUMN_COUNT)%nat →
     ∃ v, getitem sample_board r (6 - c) = Ret v ∧
          getitem (mirror_board sample_board) r c = Ret v) ∧
  (∃ won, winning_move sample_board PLAYER_PIECE = Ret won ∧
          winning_move (mirror_board sample_board) PLAYER_PIECE = Ret won) ∧
  winning_move_horizontal (mirror_board sample_board) PLAYER_PIECE
    = winning_move_horizontal sample_board PLAYER_PIECE ∧
  winning_move_vertical (mirror_board sample_board) PLAYER_PIECE
    = winning_move_vertical sample_board PLAYER_PIECE ∧
  winning_move_rising (mirror_board sample_board) PLAYER_PIECE
    = winning_move_falling sample_board PLAYER_PIECE ∧
  winning_move_falling (mirror_board sample_board) PLAYER_PIECE
    = winning_move_rising sample_board PLAYER_PIECE.
Proof.
  apply (winning_move_mirror sample_board PLAYER_PIECE).
  split; [reflexivity|]. repeat constructor.
Defined.

(** ** The drop row and undo *)

(** C7. In a column of the board, [get_next_open_row] returns the lowest
    row whose cell is Empty, and [None] exactly when no cell of the column
    is Empty; it is therefore not [None] where [is_valid_location] holds. *)
Theorem get_next_open_row_lowest (b : board) (col : nat) :
  board_shape b → (col < COLUMN_COUNT)%nat →
  ∃ res, get_next_open_row b col = Ret res ∧
    (∀ r, res = Some r →
       (r < ROW_COUNT)%nat ∧ getitem b r col = Ret EMPTY ∧
       ∀ r', (r' < r)%nat → ∃ v, getitem b r' col = Ret v ∧ v ≠ EMPTY) ∧
    (res = None ↔
       ∀ r, (r < ROW_COUNT)%nat → ∃ v, getitem b r col = Ret v ∧ v ≠ EMPTY) ∧
    (is_valid_location b col = Ret true → res ≠ None).
Proof.
  intros Hb Hcol.
  destruct (for_find_seq (λ r, v ← getitem b r col; Ret (v =? EMPTY))
              (λ r, cell b r col =? EMPTY) 0 ROW_COUNT) as (res & Hres & Hspec).
  { intros r Hr. by rewrite getitem_cell by (done || lia). }
  exists res. split; [done|].
  assert (Hne : ∀ r, (r < ROW_COUNT)%nat → (cell b r col =? EMPTY) = false →
                ∃ v, getitem b r col = Ret v ∧ v ≠ EMPTY).
  { intros r Hr Hv. exists (cell b r col). split; [by apply getitem_cell|].
    by apply Z.eqb_neq. }
  assert (Hnone : res = None ↔
     ∀ r, (r < ROW_COUNT)%nat → ∃ v, getitem b r col = Ret v ∧ v ≠ EMPTY).
  { destruct res as [r|]; split; try done.
    - intros Hall. destruct Hspec as (Hr & Hv & _).
      destruct (Hall r) as (v & Hget & Hv'); [lia|].
      rewrite getitem_cell in Hget by (done || lia).
      injection Hget as <-. by apply Z.eqb_eq in Hv.
    - intros _ r Hr. apply Hne; [done|]. apply Hspec. lia. }
  split; [|split; [done|]].
  - intros r ->. destruct Hspec as (Hr & Hv & Hlow).
    split; [lia|]. split.
    + apply getitem_EMPTY_cell; [done|lia|done|]. by apply Z.eqb_eq.
    + intros r' Hr'. apply Hne; [lia|]. apply Hlow. lia.
  - rewrite is_valid_location_cell by done. intros [= Htop] ->.
    destruct (proj1 Hnone eq_refl (ROW_COUNT - 1)%nat) as (v & Hget & Hv).
    { unfold ROW_COUNT; lia. }
    rewrite getitem_cell in Hget by (done || (unfold ROW_COUNT; lia)).
    injection Hget as <-. by apply Z.eqb_eq in Htop.
Qed.

Lemma get_next_open_row_lowest_witness :
  ∃ res, get_next_open_row sample_board 1 = Ret res ∧
    (∀ r, res = Some r →
       (r < ROW_COUNT)%nat ∧ getitem sample_board r 1 = Ret EMPTY ∧
       ∀ r', (r' < r)%nat →
         ∃ v, getitem sample_board r' 1 = Ret v ∧ v ≠ EMPTY) ∧
    (res = None ↔
       ∀ r, (r < ROW_COUNT)%nat →
         ∃ v, getitem sample_board r 1 = Ret v ∧ v ≠ EMPTY) ∧
    (is_valid_location sample_board 1 = Ret true → res ≠ None).
Proof.
  apply (get_next_open_row_lowest sample_board 1).
  - split; [reflexivity|]. repeat constructor.
  - unfold COLUMN_COUNT. lia.
Defined.

(** C8. Dropping a piece in a valid column, in the row
    [get_next_open_row] gives, and then clearing that cell as undo does,
    gives back the board as it was, cell by cell. *)
Theorem undo_round_trip (h : heap) (l : loc) (b : board) (col : nat) (piece : Z) :
  h !! l = Some b → board_shape b →
  is_valid_location b col = Ret true → is_piece piece →
  ∃ row h1 b1 h2,
    get_next_open_row b col = Ret (Some row) ∧
    drop_piece l (Some row) col piece h = Ret ((), h1) ∧
    h1 !! l = Some b1 ∧ getitem b1 row col = Ret piece ∧
    undo_cell l row col h1 = Ret ((), h2) ∧
    h2 !! l = Some b ∧ h2 = h.
Proof.
  intros Hl Hb Hvalid Hpiece%int64_ok_piece.
  apply is_valid_location_true in Hvalid as Hcol; [|done].
  destruct (get_next_open_row_valid b col Hb Hcol) as (r & Hrow & Hr & Hempty).
  apply valid_columns_spec in Hcol as [Hcol _].
  destruct (board_shape_row b r Hb Hr) as (cells & Hcells & Hlen).
  pose proof (place_shape b r col piece Hb) as Hb1.
  destruct (board_shape_row _ r Hb1 Hr) as (cells1 & Hcells1 & Hlen1).
  exists r, (<[l := place b r col piece]> h), (place b r col piece), h.
  split_and!; try done.
  - unfold drop_piece. by apply (setitem_run l b cells); [..|lia].
  - apply lookup_insert_eq.
  - rewrite getitem_cell, cell_place by done. by rewrite decide_True.
  - unfold undo_cell.
    rewrite (setitem_run l (place b r col piece) cells1 r col EMPTY)
      by (done || lia || apply lookup_insert_eq).
    rewrite insert_insert_eq, place_place by done.
    rewrite <- Hempty at 1. rewrite place_same by done.
    by rewrite insert_id.
Qed.

Lemma undo_round_trip_witness :
  ∃ row h1 b1 h2,
    get_next_open_row sample_board 2 = Ret (Some row) ∧
    drop_piece 1%positive (Some row) 2 AI_PIECE {[1%positive := sample_board]}
      = Ret ((), h1) ∧
    h1 !! 1%positive = Some b1 ∧ getitem b1 row 2 = Ret AI_PIECE ∧
    undo_cell 1%positive row 2 h1 = Ret ((), h2) ∧
    h2 !! 1%positive = Some sample_board ∧
    h2 = {[1%positive := sample_board]}.
Proof.
  apply (undo_round_trip {[1%positive := sample_board]} 1%positive
           sample_board 2 AI_PIECE).
  - reflexivity.
  - split; [reflexivity|]. repeat constructor.
  - reflexivity.
  - right. reflexivity.
Defined.

(** ** Two games *)

(** One move of [four_in_bottom_row] on the board [b] held at the
    location under consideration: the piece lands in row 0 of column [c]. *)
Local Ltac drop_step b c :=
  rewrite (bind_drop_in _ b 0 c PLAYER_PIECE) by
    (apply lookup_insert_eq || (by apply board_shape_spec) || reflexivity ||
     (unfold ROW_COUNT, COLUMN_COUNT; lia));
  rewrite insert_insert_eq;
  let b' := eval vm_compute in (place b 0 c PLAYER_PIECE) in
  change (place b 0 c PLAYER_PIECE) with b'.

(** C9. On a new board, four drops of the player's piece in columns 0, 1,
    2 and 3 each land in row 0, and the board they leave is won by the
    player and terminal. *)
Theorem four_in_bottom_row_wins (h : heap) :
  ∃ h', four_in_bottom_row h =
        Ret (([Some 0; Some 0; Some 0; Some 0]%nat, true, true), h').
Proof.
  unfold four_in_bottom_row, create_board. rewrite bind_alloc.
  set (l := fresh (dom h)).
  drop_step (zeros ROW_COUNT COLUMN_COUNT) 0%nat.
  match goal with |- context [<[l := ?b]> h] => drop_step b 1%nat end.
  match goal with |- context [<[l := ?b]> h] => drop_step b 2%nat end.
  match goal with |- context [<[l := ?b]> h] => drop_step b 3%nat end.
  match goal with |- context [<[l := ?b]> h] =>
    rewrite (bind_deref l b) by apply lookup_insert_eq;
    rewrite (bind_lift (winning_move b PLAYER_PIECE) true) by reflexivity;
    rewrite (bind_lift (is_terminal_node b) true) by reflexivity
  end.
  by eexists.
Qed.

(** C10. On a new board and for either piece, every column but the middle
    one leads to a position of score 0 and the middle one to score 3, and
    [pick_best_move] returns column 3 with score 3. *)
Theorem opening_move_center (piece : Z) (h : heap) :
  is_piece piece →
  for_map (simulate (zeros ROW_COUNT COLUMN_COUNT) piece) (seq 0 COLUMN_COUNT)
    = Ret [0; 0; 0; 3; 0; 0; 0] ∧
  ∃ h', opening_move piece h = Ret ((Some 3%nat, Int 3), h').
Proof.
  intros Hpiece.
  assert (Hbest : best_move (zeros ROW_COUNT COLUMN_COUNT) piece
                  = Ret (Some 3%nat, Int 3)).
  { by destruct Hpiece as [-> | ->]; vm_compute. }
  split; [by destruct Hpiece as [-> | ->]; vm_compute|].
  unfold opening_move, create_board. rewrite bind_alloc.
  destruct (pick_best_move_run (fresh (dom h)) _ piece zeros_shape
              (int64_ok_piece _ Hpiece)
              (<[fresh (dom h) := zeros ROW_COUNT COLUMN_COUNT]> h))
    as (res & h' & Hres & Hrun & _); [apply lookup_insert_eq|].
  rewrite Hbest in Hres. injection Hres as <-. by exists h'.
Qed.

Lemma opening_move_center_witness :
  for_map (simulate (zeros ROW_COUNT COLUMN_COUNT) AI_PIECE) (seq 0 COLUMN_COUNT)
    = Ret [0; 0; 0; 3; 0; 0; 0] ∧
  ∃ h', opening_move AI_PIECE ∅ = Ret ((Some 3%nat, Int 3), h').
Proof.
  apply (opening_move_center AI_PIECE ∅). right. reflexivity.
Defined.

(** * Further properties of the code *)

(** ** Lines of four *)

Lemma cell_at_cell b (zr zc : Z) (r c : nat) :
  board_shape b → zr = Z.of_nat r → zc = Z.of_nat c →
  (r < ROW_COUNT)%nat → (c < COLUMN_COUNT)%nat →
  cell_at b zr zc = Some (cell b r c).
Proof.
  intros Hb -> -> Hr Hc. unfold cell_at.
  destruct (board_shape_row b r Hb Hr) as (cells & Hcells & Hlen).
  destruct (lookup_lt_is_Some_2 cells c) as [v Hv]; [lia|].
  rewrite (proj2 (Z.leb_le 0 _)), (proj2 (Z.leb_le 0 _)) by lia.
  rewrite !Nat2Z.id. cbn. unfold cell, getitem. by rewrite Hcells, Hv.
Qed.

Lemma cell_at_Some b (zr zc v : Z) :
  board_shape b → cell_at b zr zc = Some v →
  0 ≤ zr < 6 ∧ 0 ≤ zc < 7 ∧ cell b (Z.to_nat zr) (Z.to_nat zc) = v.
Proof.
  intros [Hlen Hrows]. unfold cell_at.
  destruct (0 <=? zr) eqn:Hzr; [|done]. destruct (0 <=? zc) eqn:Hzc; [|done].
  apply Z.leb_le in Hzr, Hzc. cbn.
  destruct (b !! Z.to_nat zr) as [cells|] eqn:Hcells; [|done]. intros Hv.
  apply lookup_lt_Some in Hcells as Hr. apply lookup_lt_Some in Hv as Hc.
  rewrite (proj1 (Forall_lookup _ _) Hrows _ _ Hcells) in Hc.
  unfold ROW_COUNT, COLUMN_COUNT in *.
  split; [lia|]. split; [lia|]. unfold cell, getitem. by rewrite Hcells, Hv.
Qed.

Section four_in_line.
Context (b : board) (piece : Z) (Hb : board_shape b).

(** The cell of the goal, at integer coordinates, is one of the context. *)
Local Ltac at_cell :=
  match goal with
  | H : cell b ?r ?c = piece |- cell_at b _ _ = Some piece =>
      rewrite (cell_at_cell b _ _ r c)
        by (done || (unfold ROW_COUNT, COLUMN_COUNT; lia));
      by rewrite H
  end.

Local Ltac line_found dr dc :=
  let r := fresh "r" in let c := fresh "c" in let i := fresh "i" in
  let Hw := fresh "Hw" in let Hr := fresh "Hr" in let Hc := fresh "Hc" in
  let Hl := fresh "Hl" in let Hi := fresh "Hi" in
  let H0 := fresh "H0" in let H1 := fresh "H1" in
  let H2 := fresh "H2" in let H3 := fresh "H3" in
  intros Hw; apply any_window_true in Hw; destruct Hw as (r & c & Hr & Hc & Hl);
  apply line_true in Hl; destruct Hl as (H0 & H1 & H2 & H3);
  exists (Z.of_nat r), (Z.of_nat c), dr, dc;
  (split; [unfold directions; repeat constructor|]);
  intros i Hi;
  assert (i = 0 ∨ i = 1 ∨ i = 2 ∨ i = 3) as [-> | [-> | [-> | ->]]] by lia;
  at_cell.

Lemma wins_four_in_line : wins b piece = true → four_in_line b piece.
Proof.
  unfold wins. rewrite !orb_true_iff.
  unfold wins_horizontal, wins_vertical, wins_rising, wins_falling,
    ROW_COUNT, COLUMN_COUNT.
  intros [H | [H | [H | [H | H]]]]; [revert H..|done].
  - line_found 0 1.
  - line_found 1 0.
  - line_found 1 1.
  - line_found (-1) 1.
Qed.

(** The cell of the goal is one of those the line vouches for. *)
Local Ltac from_line :=
  match goal with
  | H : cell b ?r' ?c' = piece |- cell b ?r ?c = piece =>
      replace r with r' by lia; replace c with c' by lia; exact H
  end.

Lemma four_in_line_wins : four_in_line b piece → wins b piece = true.
Proof.
  intros (r & c & dr & dc & Hd & Hcells).
  destruct (cell_at_Some b _ _ _ Hb (Hcells 0 ltac:(lia))) as (? & ? & ?).
  destruct (cell_at_Some b _ _ _ Hb (Hcells 1 ltac:(lia))) as (? & ? & ?).
  destruct (cell_at_Some b _ _ _ Hb (Hcells 2 ltac:(lia))) as (? & ? & ?).
  destruct (cell_at_Some b _ _ _ Hb (Hcells 3 ltac:(lia))) as (? & ? & ?).
  unfold wins. rewrite !orb_true_iff.
  unfold wins_horizontal, wins_vertical, wins_rising, wins_falling,
    ROW_COUNT, COLUMN_COUNT.
  unfold directions in Hd.
  repeat (apply elem_of_cons in Hd as [[= -> ->] | Hd]);
    [| | | |by apply elem_of_nil in Hd].
  - left. apply any_window_true. exists (Z.to_nat r), (Z.to_nat c).
    split; [lia|]. split; [lia|]. apply line_true. split_and!; from_line.
  - right; left. apply any_window_true. exists (Z.to_nat r), (Z.to_nat c).
    split; [lia|]. split; [lia|]. apply line_true. split_and!; from_line.
  - right; right; left. apply any_window_true.
    exists (Z.to_nat r), (Z.to_nat c).
    split; [lia|]. split; [lia|]. apply line_true. split_and!; from_line.
  - right; right; right; left. apply any_window_true.
    exists (Z.to_nat r), (Z.to_nat c).
    split; [lia|]. split; [lia|]. apply line_true. split_and!; from_line.
Qed.
End four_in_line.

(** X1. [winning_move] answers [True] exactly when the board has four cells
    in a line (along a row, a column or either diagonal), all of them inside
    the board, that hold the piece: the bounds of the four scans neither
    miss a window nor leave the board. *)
Theorem winning_move_four_in_line (b : board) (piece : Z) :
  board_shape b →
  ∃ won, winning_move b piece = Ret won ∧ (won = true ↔ four_in_line b piece).
Proof.
  intros Hb. exists (wins b piece). split; [by apply winning_move_Ret|].
  split; [by apply wins_four_in_line|by apply four_in_line_wins].
Qed.

Lemma winning_move_four_in_line_witness :
  ∃ won, winning_move sample_board AI_PIECE = Ret won ∧
         (won = true ↔ four_in_line sample_board AI_PIECE).
Proof.
  apply (winning_move_four_in_line sample_board AI_PIECE).
  split; [reflexivity|]. repeat constructor.
Defined.

(** ** One drop *)

(** Case analysis on a natural number below [n]. *)
Local Ltac cases_below n x :=
  lazymatch n with
  | O => idtac
  | S ?n' => destruct x as [|x]; [|cases_below n' x]
  end.

(** The sample position has no floating piece. *)
Local Ltac sample_settled :=
  let r := fresh "r" in let r' := fresh "r'" in let c := fresh "c" in
  let Hlt := fresh "Hlt" in let Hr := fresh "Hr" in let Hc := fresh "Hc" in
  let Hne := fresh "Hne" in
  intros r r' c Hlt Hr Hc; unfold ROW_COUNT, COLUMN_COUNT in *;
  cases_below 6%nat r; try lia;
  cases_below 6%nat r'; try lia;
  cases_below 7%nat c; try lia;
  vm_compute; intros Hne; first [done | by destruct Hne].

Lemma drop_in_run (h : heap) (l : loc) (b : board) (col : nat) (piece : Z) :
  h !! l = Some b → board_shape b → col ∈ valid_columns b →
  int64_ok piece = true →
  ∃ r, get_next_open_row b col = Ret (Some r) ∧
    (r < ROW_COUNT)%nat ∧ (col < COLUMN_COUNT)%nat ∧ cell b r col = EMPTY ∧
    (∀ r', (r' < r)%nat → cell b r' col ≠ EMPTY) ∧
    drop_in l col piece h = Ret (Some r, <[l := place b r col piece]> h).
Proof.
  intros Hl Hb Hvalid Hpiece.
  apply valid_columns_spec in Hvalid as Hcol. destruct Hcol as [Hcol Htop].
  destruct (get_next_open_row_find b col Hb Hcol) as ([r|] & Hrow & Hspec).
  - destruct Hspec as (Hr & Hempty & Hlow). exists r. split_and!; try done.
    destruct (board_shape_row b r Hb Hr) as (cells & Hcells & Hlen).
    unfold drop_in, drop_piece.
    rewrite (bind_deref _ _ _ _ Hl), (bind_lift _ _ _ _ Hrow).
    by rewrite (bind_setitem l b cells r col piece) by (done || lia).
  - destruct (Hspec (ROW_COUNT - 1)%nat); [unfold ROW_COUNT; lia|done].
Qed.

(** X2. A move in a valid column (the row from [get_next_open_row], then
    [drop_piece]) writes the piece into a cell that was Empty and changes
    no other cell of the board and no other array. *)
Theorem drop_in_one_cell (h : heap) (l : loc) (b : board) (col : nat) (piece : Z) :
  h !! l = Some b → board_shape b →
  is_valid_location b col = Ret true → is_piece piece →
  ∃ row b' h',
    drop_in l col piece h = Ret (Some row, h') ∧
    h' !! l = Some b' ∧ board_shape b' ∧
    (row < ROW_COUNT)%nat ∧
    getitem b row col = Ret EMPTY ∧ getitem b' row col = Ret piece ∧
    (∀ r c, (r, c) ≠ (row, col) → getitem b' r c = getitem b r c) ∧
    (∀ k, k ≠ l → h' !! k = h !! k).
Proof.
  intros Hl Hb Hvalid%is_valid_location_true Hpiece%int64_ok_piece; [|done].
  destruct (drop_in_run h l b col piece Hl Hb Hvalid Hpiece)
    as (row & _ & Hrow & Hcol & Hempty & _ & Hrun).
  pose proof (place_shape b row col piece Hb) as Hb'.
  exists row, (place b row col piece), (<[l := place b row col piece]> h).
  split_and!; try done.
  - apply lookup_insert_eq.
  - by apply getitem_EMPTY_cell.
  - rewrite getitem_cell, cell_place by done. by rewrite decide_True.
  - intros r c Hne. unfold getitem, place.
    destruct (b !! row) as [cells|] eqn:Hcells; [|done].
    destruct (decide (r = row)) as [->|Hr].
    + rewrite list_lookup_insert_eq by (by eapply lookup_lt_Some).
      rewrite Hcells. rewrite list_lookup_insert_ne; [done|]. congruence.
    + by rewrite list_lookup_insert_ne.
  - intros k Hk. by apply lookup_insert_ne.
Qed.

Lemma drop_in_one_cell_witness :
  ∃ row b' h',
    drop_in 1%positive 1 AI_PIECE {[1%positive := sample_board]}
      = Ret (Some row, h') ∧
    h' !! 1%positive = Some b' ∧ board_shape b' ∧
    (row < ROW_COUNT)%nat ∧
    getitem sample_board row 1 = Ret EMPTY ∧ getitem b' row 1 = Ret AI_PIECE ∧
    (∀ r c, (r, c) ≠ (row, 1%nat) → getitem b' r c = getitem sample_board r c) ∧
    (∀ k, k ≠ 1%positive →
          h' !! k = ({[1%positive := sample_board]} : heap) !! k).
Proof.
  apply (drop_in_one_cell {[1%positive := sample_board]} 1%positive
           sample_board 1 AI_PIECE).
  - reflexivity.
  - split; [reflexivity|]. repeat constructor.
  - reflexivity.
  - right. reflexivity.
Defined.

Lemma place_settled b row col piece :
  board_shape b → settled b → piece ≠ EMPTY →
  (row < ROW_COUNT)%nat → (col < COLUMN_COUNT)%nat →
  (∀ r', (r' < row)%nat → cell b r' col ≠ EMPTY) →
  settled (place b row col piece).
Proof.
  intros Hb Hsettled Hpiece Hrow Hcol Hlow r r' c Hlt Hr Hc.
  rewrite !cell_place by done.
  destruct (decide (r' = row ∧ c = col)) as [[-> ->]|Hne']; [done|].
  destruct (decide (r = row ∧ c = col)) as [[-> ->]|Hne].
  - intros _. by apply Hlow.
  - by apply Hsettled.
Qed.

(** X3. A move in a valid column of a board without floating pieces leaves
    a board without floating pieces. *)
Theorem drop_in_settled (h : heap) (l : loc) (b : board) (col : nat) (piece : Z) :
  h !! l = Some b → board_shape b → settled b →
  is_valid_location b col = Ret true → is_piece piece →
  ∃ row b' h',
    drop_in l col piece h = Ret (Some row, h') ∧
    h' !! l = Some b' ∧ board_shape b' ∧ settled b'.
Proof.
  intros Hl Hb Hsettled Hvalid%is_valid_location_true Hpiece; [|done].
  destruct (drop_in_run h l b col piece Hl Hb Hvalid (int64_ok_piece _ Hpiece))
    as (row & _ & Hrow & Hcol & Hempty & Hlow & Hrun).
  exists row, (place b row col piece), (<[l := place b row col piece]> h).
  split_and!; [done|apply lookup_insert_eq|by apply place_shape|].
  apply place_settled; try done. by destruct Hpiece as [-> | ->].
Qed.

Lemma drop_in_settled_witness :
  ∃ row b' h',
    drop_in 1%positive 4 PLAYER_PIECE {[1%positive := sample_board]}
      = Ret (Some row, h') ∧
    h' !! 1%positive = Some b' ∧ board_shape b' ∧ settled b'.
Proof.
  apply (drop_in_settled {[1%positive := sample_board]} 1%positive
           sample_board 4 PLAYER_PIECE).
  - reflexivity.
  - split; [reflexivity|]. repeat constructor.
  - sample_settled.
  - reflexivity.
  - left. reflexivity.
Defined.

(** X4. On a board without floating pieces a column fails
    [is_valid_location] exactly when [get_next_open_row] finds no row in
    it. *)
Theorem full_column_no_open_row (b : board) (col : nat) :
  board_shape b → settled b → (col < COLUMN_COUNT)%nat →
  is_valid_location b col = Ret false ↔ get_next_open_row b col = Ret None.
Proof.
  intros Hb Hsettled Hcol. rewrite is_valid_location_cell by done.
  destruct (get_next_open_row_find b col Hb Hcol) as (res & -> & Hspec).
  split.
  - intros [= Htop%Z.eqb_neq]. destruct res as [r|]; [|done].
    destruct Hspec as (Hr & Hempty & _). exfalso.
    destruct (decide (r = ROW_COUNT - 1)%nat) as [->|Hne]; [done|].
    apply (Hsettled (ROW_COUNT - 1)%nat r col); try done;
      unfold ROW_COUNT in *; lia.
  - intros [= ->]. f_equal. apply Z.eqb_neq, Hspec. unfold ROW_COUNT; lia.
Qed.

Lemma full_column_no_open_row_witness :
  is_valid_location sample_board 3 = Ret false ↔
  get_next_open_row sample_board 3 = Ret None.
Proof.
  apply (full_column_no_open_row sample_board 3).
  - split; [reflexivity|]. repeat constructor.
  - sample_settled.
  - unfold COLUMN_COUNT. lia.
Defined.

(** ** The valid columns *)

Lemma filter_seq_sorted (g : nat → bool) (start n : nat) :
  StronglySorted lt (List.filter g (seq start n)).
Proof.
  revert start. induction n as [|n IH]; intros start; [constructor|].
  cbn [seq List.filter]. destruct (g start); [|apply IH].
  constructor; [apply IH|]. apply Forall_forall.
  intros x [Hx _]%list_elem_of_In%filter_In. apply in_seq in Hx. lia.
Qed.

(** X5. [get_valid_locations] lists the columns for which
    [is_valid_location] holds, each once and in ascending order. *)
Theorem get_valid_locations_ascending (b : board) :
  board_shape b →
  ∃ valid_locations,
    get_valid_locations b = Ret valid_locations ∧
    StronglySorted lt valid_locations ∧
    ∀ c, c ∈ valid_locations ↔ is_valid_location b c = Ret true.
Proof.
  intros Hb. exists (valid_columns b).
  split; [by apply get_valid_locations_Ret|].
  split; [apply filter_seq_sorted|]. intros c. split.
  - intros [Hc Htop]%valid_columns_spec.
    rewrite is_valid_location_cell by done. f_equal. by apply Z.eqb_eq.
  - by apply is_valid_location_true.
Qed.

Lemma get_valid_locations_ascending_witness :
  ∃ valid_locations,
    get_valid_locations sample_board = Ret valid_locations ∧
    StronglySorted lt valid_locations ∧
    ∀ c, c ∈ valid_locations ↔ is_valid_location sample_board c = Ret true.
Proof.
  apply (get_valid_locations_ascending sample_board).
  split; [reflexivity|]. repeat constructor.
Defined.

(** ** Wins last *)

Lemma any_window_mono cs rs (w w' : nat → nat → bool) :
  (∀ r c, w r c = true → w' r c = true) →
  any_window cs rs w = true → any_window cs rs w' = true.
Proof.
  intros Hw. unfold any_window. rewrite !existsb_exists.
  intros (c & Hc & Hr). exists c. split; [done|].
  apply existsb_exists in Hr as (r & Hr & Hrc).
  apply existsb_exists. exists r. split; [done|]. by apply Hw.
Qed.

Lemma line_place b p r0 c0 r1 c1 r2 c2 r3 c3 row col piece :
  board_shape b → (row < ROW_COUNT)%nat → (col < COLUMN_COUNT)%nat →
  cell b row col ≠ p →
  line b p r0 c0 r1 c1 r2 c2 r3 c3 = true →
  line (place b row col piece) p r0 c0 r1 c1 r2 c2 r3 c3 = true.
Proof.
  intros Hb Hrow Hcol Hne. rewrite !line_true, !cell_place by done.
  intros (H0 & H1 & H2 & H3).
  split_and!; (rewrite decide_False; [done|]); intros [-> ->]; done.
Qed.

Lemma wins_place b p row col piece :
  board_shape b → (row < ROW_COUNT)%nat → (col < COLUMN_COUNT)%nat →
  cell b row col ≠ p →
  wins b p = true → wins (place b row col piece) p = true.
Proof.
  intros Hb Hrow Hcol Hne. unfold wins. rewrite !orb_true_iff.
  unfold wins_horizontal, wins_vertical, wins_rising, wins_falling.
  intros [H | [H | [H | [H | H]]]]; [| | | |done].
  - left. revert H. apply any_window_mono. intros r c. by apply line_place.
  - right; left. revert H. apply any_window_mono. intros r c.
    by apply line_place.
  - right; right; left. revert H. apply any_window_mono. intros r c.
    by apply line_place.
  - right; right; right; left. revert H. apply any_window_mono. intros r c.
    by apply line_place.
Qed.

(** X6. A win stays a win: after a move in a valid column, a piece for
    which [winning_move] held before the move still has it. *)
Theorem drop_in_keeps_win (h : heap) (l : loc) (b : board) (col : nat)
    (piece winner : Z) :
  h !! l = Some b → board_shape b →
  is_valid_location b col = Ret true → is_piece piece →
  winner ≠ EMPTY → winning_move b winner = Ret true →
  ∃ row b' h',
    drop_in l col piece h = Ret (Some row, h') ∧
    h' !! l = Some b' ∧ winning_move b' winner = Ret true.
Proof.
  intros Hl Hb Hvalid%is_valid_location_true Hpiece%int64_ok_piece Hwinner Hwon;
    [|done].
  destruct (drop_in_run h l b col piece Hl Hb Hvalid Hpiece)
    as (row & _ & Hrow & Hcol & Hempty & _ & Hrun).
  exists row, (place b row col piece), (<[l := place b row col piece]> h).
  split_and!; [done|apply lookup_insert_eq|].
  rewrite winning_move_Ret in Hwon by done. injection Hwon as Hwon.
  rewrite winning_move_Ret by (by apply place_shape). f_equal.
  apply wins_place; try done. by rewrite Hempty.
Qed.

Lemma drop_in_keeps_win_witness :
  ∃ row b' h',
    drop_in 1%positive 5 AI_PIECE {[1%positive := won_board]}
      = Ret (Some row, h') ∧
    h' !! 1%positive = Some b' ∧ winning_move b' PLAYER_PIECE = Ret true.
Proof.
  apply (drop_in_keeps_win {[1%positive := won_board]} 1%positive
           won_board 5 AI_PIECE PLAYER_PIECE).
  - reflexivity.
  - split; [reflexivity|]. repeat constructor.
  - reflexivity.
  - right. reflexivity.
  - discriminate.
  - reflexivity.
Defined.

(** ** Windows as multisets *)

Lemma count_Permutation (w w' : list Z) (x : Z) :
  w ≡ₚ w' → count w x = count w' x.
Proof.
  induction 1 as [|y w w' _ IH|y z w|w w' w'' _ IH1 _ IH2]; cbn; lia.
Qed.

(** X7. [evaluate_window] depends on the cells of a window only up to
    their order. *)
Theorem evaluate_window_Permutation (window window' : list Z) (piece : Z) :
  window ≡ₚ window' →
  evaluate_window window piece = evaluate_window window' piece.
Proof.
  intros Hperm. unfold evaluate_window.
  by rewrite !(count_Permutation window window' _ Hperm).
Qed.

Lemma evaluate_window_Permutation_witness :
  evaluate_window [1; 0; 1; 1] PLAYER_PIECE
  = evaluate_window [1; 1; 1; 0] PLAYER_PIECE.
Proof.
  apply (evaluate_window_Permutation [1; 0; 1; 1] [1; 1; 1; 0] PLAYER_PIECE).
  constructor. apply (Permutation_cons_append [1; 1] 0).
Defined.

(** * The game loop *)

(** ** Histories *)

Lemma list_pop_snoc {A} (l : list A) (x : A) : list_pop (l ++ [x]) = Some (x, l).
Proof. unfold list_pop. by rewrite last_snoc, removelast_last. Qed.

Lemma list_pop_None {A} (l : list A) : list_pop l = None → l = [].
Proof.
  destruct l as [|x l] using rev_ind; [done|]. by rewrite list_pop_snoc.
Qed.

Lemma mover_piece n : mover n = PLAYER_PIECE ∨ mover n = AI_PIECE.
Proof. unfold mover. destruct (Nat.even n); [by left|by right]. Qed.

Lemma even_snoc {A} (l : list A) (x : A) :
  Nat.even (length (l ++ [x])) = negb (Nat.even (length l)).
Proof. by rewrite length_app, Nat.add_1_r, Nat.even_succ, <- Nat.negb_even. Qed.

Lemma replays_shape hs b : replays hs b → board_shape b.
Proof.
  induction 1 as [|hs b col r _ IH _ _ _ _]; [apply zeros_shape|].
  by apply place_shape.
Qed.

Lemma replays_snoc_inv hs m b :
  replays (hs ++ [m]) b →
  ∃ b0 col r,
    m = (col, Some r, mover (length hs)) ∧
    b = place b0 r col (mover (length hs)) ∧
    replays hs b0 ∧ terminal b0 = false ∧ col ∈ valid_columns b0 ∧
    get_next_open_row b0 col = Ret (Some r) ∧
    (Nat.even (length hs) = false →
       ∃ sc, best_move b0 AI_PIECE = Ret (Some col, sc)).
Proof.
  inversion 1 as [Hnil|hs' b0 col r Hhs Hterm Hcol Hrow Hbot Heq Hb].
  - by destruct hs.
  - apply app_inj_tail in Heq as [-> <-]. by exists b0, col, r.
Qed.

Lemma replays_mover hs b :
  replays hs b → ∀ i m, hs !! i = Some m → m.2 = mover i.
Proof.
  induction 1 as [|hs b col r _ IH _ _ _ _]; intros i m Hi; [done|].
  apply lookup_app_Some in Hi as [Hi | [Hlen Hi]]; [by apply IH|].
  apply list_lookup_singleton_Some in Hi as [Hk <-]. cbn. f_equal.
  lia.
Qed.

Lemma zeros_settled : settled (zeros ROW_COUNT COLUMN_COUNT).
Proof.
  intros r r' c Hlt Hr Hc Hne. exfalso. apply Hne.
  unfold ROW_COUNT, COLUMN_COUNT in *.
  cases_below 6%nat r; try lia; cases_below 7%nat c; try lia; reflexivity.
Qed.

Lemma get_next_open_row_Some b col r :
  board_shape b → (col < COLUMN_COUNT)%nat →
  get_next_open_row b col = Ret (Some r) →
  (r < ROW_COUNT)%nat ∧ cell b r col = EMPTY ∧
  ∀ r', (r' < r)%nat → cell b r' col ≠ EMPTY.
Proof.
  intros Hb Hcol Hrow.
  destruct (get_next_open_row_find b col Hb Hcol) as (res & Hres & Hspec).
  rewrite Hrow in Hres. by injection Hres as <-.
Qed.

Lemma replays_settled hs b : replays hs b → settled b.
Proof.
  induction 1 as [|hs b col r Hhs IH _ Hcol Hrow _]; [apply zeros_settled|].
  pose proof (replays_shape _ _ Hhs) as Hb.
  apply valid_columns_spec in Hcol as [Hcol _].
  destruct (get_next_open_row_Some b col r Hb Hcol Hrow) as (Hr & _ & Hlow).
  apply place_settled; try done.
  by destruct (mover_piece (length hs)) as [-> | ->].
Qed.

(** ** Terminal boards *)

Lemma terminal_false b :
  terminal b = false →
  wins b PLAYER_PIECE = false ∧ wins b AI_PIECE = false ∧ valid_columns b ≠ [].
Proof.
  unfold terminal. intros [Hp [Ha Hfull]%orb_false_iff]%orb_false_iff.
  split_and!; [done..|]. intros Hnil. by rewrite Hnil in Hfull.
Qed.

(** A drop gives the other side no line of four. *)
Lemma wins_place_other b r c p q :
  board_shape b → (r < ROW_COUNT)%nat → (c < COLUMN_COUNT)%nat →
  cell b r c = EMPTY → p ≠ q →
  wins b q = false → wins (place b r c p) q = false.
Proof.
  intros Hb Hr Hc Hempty Hne Hq.
  destruct (wins (place b r c p) q) eqn:Hw; [|done].
  rewrite <- Hq. symmetry.
  assert (Hback : place (place b r c p) r c EMPTY = b).
  { rewrite place_place by done. rewrite <- Hempty. by apply place_same. }
  rewrite <- Hback. apply wins_place; [by apply place_shape|done..| |done].
  rewrite cell_place, decide_True by done. done.
Qed.

Lemma terminal_moved b r col n :
  board_shape b → (r < ROW_COUNT)%nat → (col < COLUMN_COUNT)%nat →
  cell b r col = EMPTY → terminal b = false →
  terminal (place b r col (mover n)) =
  wins (place b r col (mover n)) (mover n) ||
  (length (valid_columns (place b r col (mover n))) =? 0)%nat.
Proof.
  intros Hb Hr Hc Hempty (Hp & Ha & _)%terminal_false.
  unfold terminal, mover. destruct (Nat.even n).
  - by rewrite (wins_place_other b r col PLAYER_PIECE AI_PIECE).
  - by rewrite (wins_place_other b r col AI_PIECE PLAYER_PIECE).
Qed.

(** ** The invariant of the loop *)

Lemma session_ok_fields h s s' :
  board_ref s' = board_ref s → history s' = history s →
  turn s' = turn s → game_over s' = game_over s →
  session_ok h s → session_ok h s'.
Proof.
  intros Hb Hh Ht Hg (b & Hl & Hrep & Hover & Hturn).
  exists b. rewrite Hb, Hh, Ht, Hg. done.
Qed.

Lemma session_ok_weaken (h h' : heap) s :
  h ⊆ h' → session_ok h s → session_ok h' s.
Proof.
  intros Hsub (b & Hl & Hrest). exists b. split; [|done].
  by eapply lookup_weaken.
Qed.

(** Whose turn it is while the game goes on. *)
Lemma session_turn h s :
  session_ok h s → game_over s = false →
  turn s = (if Nat.even (length (history s)) then PLAYER else AI).
Proof.
  intros (b & _ & _ & _ & Hturn) Hover. rewrite Hturn, Hover.
  by destruct (Nat.even _).
Qed.

Lemma fresh_board_ok (h : heap) s :
  board_ref s = fresh (dom h) → history s = [] → turn s = PLAYER →
  game_over s = false →
  session_ok (<[fresh (dom h) := zeros ROW_COUNT COLUMN_COUNT]> h) s.
Proof.
  intros Hb Hh Ht Hg. exists (zeros ROW_COUNT COLUMN_COUNT).
  rewrite Hb, Hh, Ht, Hg. split; [apply lookup_insert_eq|].
  split; [constructor|]. done.
Qed.

Lemma start_session_ok (h : heap) :
  ∃ s h', start_session h = Ret (s, h') ∧ session_ok h' s.
Proof.
  eexists _, _. split; [reflexivity|]. by apply fresh_board_ok.
Qed.

Lemma play_again_ok s (h : heap) :
  ∃ s' h', play_again s h = Ret (s', h') ∧ session_ok h' s'.
Proof.
  unfold play_again, create_board. rewrite bind_alloc.
  eexists _, _. split; [reflexivity|]. by apply fresh_board_ok.
Qed.

Lemma restart_ok s (h : heap) :
  ∃ s' h', restart s h = Ret (s', h') ∧ session_ok h' s'.
Proof.
  unfold restart, create_board. rewrite bind_alloc.
  eexists _, _. split; [reflexivity|]. by apply fresh_board_ok.
Qed.

(** The recommendation on a board that is not terminal. *)
Lemma get_recommended_move_run (l : loc) (b : board) (h : heap) :
  h !! l = Some b → board_shape b → terminal b = false →
  ∃ col sc h',
    best_move b PLAYER_PIECE = Ret (Some col, sc) ∧
    get_recommended_move l h = Ret ((Some col, drop_message col), h') ∧
    h ⊆ h'.
Proof.
  intros Hl Hb Hterm. unfold get_recommended_move.
  rewrite (bind_deref _ _ _ _ Hl), (bind_lift _ _ _ _ (is_terminal_node_Ret b Hb)).
  fold (terminal b). rewrite Hterm.
  destruct (pick_best_move_run l b PLAYER_PIECE Hb eq_refl h Hl)
    as (best & h' & Hbest & Hrun & Hsub).
  unfold mbind, St_bind. rewrite Hrun.
  destruct (best_move_spec b PLAYER_PIECE Hb) as (res & Hres & Hspec).
  rewrite Hbest in Hres. injection Hres as <-.
  apply terminal_false in Hterm as (_ & _ & Hvalid).
  destruct (valid_columns b) as [|c0 cols]; [done|].
  destruct Hspec as (col & sc & -> & _). by exists col, (Int sc), h'.
Qed.

Lemma solution_ok s (h : heap) :
  session_ok h s → ∃ s' h', solution s h = Ret (s', h') ∧ session_ok h' s'.
Proof.
  intros Hok. unfold solution. destruct (game_over s) eqn:Hover.
  - eexists _, h. split; [reflexivity|]. by eapply session_ok_fields.
  - pose proof Hok as (b & Hl & Hrep & Hterm & _). rewrite Hover in Hterm.
    destruct (get_recommended_move_run _ b h Hl (replays_shape _ _ Hrep))
      as (col & sc & h' & _ & Hrun & Hsub); [done|].
    unfold mbind, St_bind. rewrite Hrun. cbn [fst snd].
    eexists _, h'. split; [reflexivity|].
    eapply session_ok_fields; [..|by eapply session_ok_weaken]; done.
Qed.

(** Unfold the assignments to the variables of the loop. *)
Local Ltac assignments :=
  cbv zeta;
  cbn [set_board_ref set_game_over set_turn set_history set_last_move_msg
       set_status_msg set_warning_msg set_recommendation_msg
       set_game_over_msg set_game_over_color set_ai_think_start
       board_ref game_over turn history last_move_msg status_msg warning_msg
       recommendation_msg game_over_msg game_over_color ai_think_start].

(** Undo of the last recorded move. *)
Lemma undo_last now s (h : heap) hs col row piece :
  session_ok h s → history s = hs ++ [(col, row, piece)] →
  ∃ s' b0 r,
    row = Some r ∧ piece = mover (length hs) ∧
    h !! board_ref s = Some (place b0 r col piece) ∧
    (r < ROW_COUNT)%nat ∧ (col < COLUMN_COUNT)%nat ∧
    cell b0 r col = EMPTY ∧ replays hs b0 ∧
    get_next_open_row b0 col = Ret (Some r) ∧
    (Nat.even (length hs) = false →
       ∃ sc, best_move b0 AI_PIECE = Ret (Some col, sc)) ∧
    undo now s h = Ret (s', <[board_ref s := b0]> h) ∧
    ai_think_start s' = (if Nat.even (length hs) then None else Some now) ∧
    board_ref s' = board_ref s ∧ history s' = hs ∧
    turn s' = (if Nat.even (length hs) then PLAYER else AI) ∧
    game_over s' = false ∧ session_ok (<[board_ref s := b0]> h) s'.
Proof.
  intros (b & Hl & Hrep & _ & _) Hhist. rewrite Hhist in Hrep.
  apply replays_snoc_inv in Hrep
    as (b0 & col' & r & [= -> -> ->] & -> & Hrep & Hterm & Hcol & Hrow & Hbot).
  pose proof (replays_shape _ _ Hrep) as Hb0.
  apply valid_columns_spec in Hcol as Hc. destruct Hc as [Hc _].
  destruct (get_next_open_row_Some b0 col' r Hb0 Hc Hrow) as (Hr & Hempty & _).
  pose proof (place_shape b0 r col' (mover (length hs)) Hb0) as Hb.
  destruct (board_shape_row _ r Hb Hr) as (cells & Hcells & Hlen).
  assert (Hsame : place b0 r col' EMPTY = b0).
  { rewrite <- Hempty. by apply place_same. }
  unfold undo. rewrite Hhist, list_pop_snoc. assignments.
  rewrite (bind_setitem (board_ref s) _ cells r col' EMPTY) by (done || lia).
  rewrite place_place, Hsame by done.
  eexists _, b0, r.
  do 9 (split; [first [assumption | reflexivity]|]).
  split; [reflexivity|]. assignments. unfold mover.
  split; [by destruct (Nat.even (length hs))|].
  do 2 (split; [reflexivity|]).
  split; [by destruct (Nat.even (length hs))|].
  split; [reflexivity|].
  exists b0. assignments.
  split; [apply lookup_insert_eq|]. split; [done|]. split; [done|].
  by destruct (Nat.even (length hs)).
Qed.

Lemma undo_ok now s (h : heap) :
  session_ok h s → ∃ s' h', undo now s h = Ret (s', h') ∧ session_ok h' s'.
Proof.
  intros Hok. destruct (history s) as [|m hs _] eqn:Hhist using rev_ind.
  - unfold undo. rewrite Hhist. eexists _, h. split; [reflexivity|].
    by eapply session_ok_fields.
  - destruct m as [[col row] piece].
    destruct (undo_last now s h hs col row piece Hok Hhist)
      as (s' & b0 & r & _ & _ & _ & _ & _ & _ & _ & _ & _ & Hrun & _ & _ & _
          & _ & _ & Hok').
    by eexists _, _.
Qed.

Lemma bind_run {A B} (m : St A) (f : A → St B) (h h' : heap) (a : A) :
  m h = Ret (a, h') → (m ≫= f) h = f a h'.
Proof. intros Hm. unfold mbind, St_bind. by rewrite Hm. Qed.

Lemma window_column (mouse_x : Z) :
  PANEL_WIDTH ≤ mouse_x → mouse_x < WINDOW_WIDTH →
  (Z.to_nat ((mouse_x - PANEL_WIDTH) / SQUARESIZE) < COLUMN_COUNT)%nat.
Proof.
  unfold WINDOW_WIDTH, BOARD_WIDTH, PANEL_WIDTH, SQUARESIZE, COLUMN_COUNT.
  intros Hlo Hhi. change (320 + Z.of_nat 7 * 100) with 1020 in Hhi.
  assert (0 ≤ (mouse_x - 320) / 100 ∧ (mouse_x - 320) / 100 < 7); [|lia].
  split; [apply Z.div_pos; lia|apply Z.div_lt_upper_bound; lia].
Qed.

(** What a move leaves behind, for either side. *)
Lemma moved_ok (h : heap) s s' b col r piece :
  h !! board_ref s = Some b → replays (history s) b → terminal b = false →
  col ∈ valid_columns b → get_next_open_row b col = Ret (Some r) →
  piece = mover (length (history s)) →
  (Nat.even (length (history s)) = false →
     ∃ sc, best_move b AI_PIECE = Ret (Some col, sc)) →
  board_ref s' = board_ref s →
  history s' = history s ++ [(col, Some r, piece)] →
  game_over s' =
    wins (place b r col piece) piece ||
    (length (valid_columns (place b r col piece)) =? 0)%nat →
  turn s' = (if xorb (Nat.even (length (history s))) (game_over s')
             then AI else PLAYER) →
  session_ok (<[board_ref s := place b r col piece]> h) s'.
Proof.
  intros Hl Hrep Hterm Hcol Hrow -> Hbot Hb Hh Hg Ht.
  pose proof (replays_shape _ _ Hrep) as Hshape.
  apply valid_columns_spec in Hcol as Hc. destruct Hc as [Hc _].
  destruct (get_next_open_row_Some b col r Hshape Hc Hrow) as (Hr & Hempty & _).
  exists (place b r col (mover (length (history s)))). rewrite Hb, Hh.
  split; [apply lookup_insert_eq|]. split; [by constructor|].
  split; [by rewrite terminal_moved|].
  rewrite even_snoc, Ht. by destruct (Nat.even _), (game_over s').
Qed.

(** A click on the board when it is the player's turn. *)
Lemma player_click_run now mouse_x s (h : heap) b :
  session_ok h s → h !! board_ref s = Some b →
  game_over s = false → turn s = PLAYER →
  PANEL_WIDTH ≤ mouse_x → mouse_x < WINDOW_WIDTH →
  ∃ valid s' h',
    is_valid_location b (Z.to_nat ((mouse_x - PANEL_WIDTH) / SQUARESIZE))
      = Ret valid ∧
    player_click now mouse_x s h = Ret (s', h') ∧
    board_ref s' = board_ref s ∧ session_ok h' s' ∧
    if valid then
      ∃ r,
        get_next_open_row b (Z.to_nat ((mouse_x - PANEL_WIDTH) / SQUARESIZE))
          = Ret (Some r) ∧
        h' = <[board_ref s :=
                 place b r (Z.to_nat ((mouse_x - PANEL_WIDTH) / SQUARESIZE))
                   PLAYER_PIECE]> h ∧
        history s' =
          history s ++
          [(Z.to_nat ((mouse_x - PANEL_WIDTH) / SQUARESIZE), Some r,
            PLAYER_PIECE)] ∧
        game_over s' =
          terminal
            (place b r (Z.to_nat ((mouse_x - PANEL_WIDTH) / SQUARESIZE))
               PLAYER_PIECE) ∧
        (if game_over s' then turn s' = PLAYER
         else turn s' = AI ∧ ai_think_start s' = Some now)
    else
      h' = h ∧ history s' = history s ∧ turn s' = PLAYER ∧
      game_over s' = false ∧
      warning_msg s' =
        "Column " +:+
        pretty (Z.to_nat ((mouse_x - PANEL_WIDTH) / SQUARESIZE) + 1)%nat +:+
        " is full.".
Proof.
  intros Hok Hl Hover Hturn Hlo Hhi.
  pose proof (window_column _ Hlo Hhi) as Hcol.
  set (col := Z.to_nat ((mouse_x - PANEL_WIDTH) / SQUARESIZE)) in *.
  pose proof (session_turn h s Hok Hover) as Heven. rewrite Hturn in Heven.
  assert (Heven' : Nat.even (length (history s)) = true).
  { by destruct (Nat.even _). }
  clear Heven.
  pose proof Hok as (b' & Hlb & Hrep & Hterm & _).
  rewrite Hl in Hlb. injection Hlb as <-. rewrite Hover in Hterm.
  symmetry in Hterm.
  pose proof (replays_shape _ _ Hrep) as Hb.
  assert (Hmover : PLAYER_PIECE = mover (length (history s))).
  { unfold mover. by rewrite Heven'. }
  unfold player_click.
  assert (Hin : (mouse_x <? PANEL_WIDTH) || (PANEL_WIDTH + BOARD_WIDTH <? mouse_x)
                = false).
  { apply orb_false_iff. rewrite !Z.ltb_ge. unfold WINDOW_WIDTH in Hhi. lia. }
  rewrite Hin. fold col. cbv beta iota zeta.
  pose proof (is_valid_location_cell b col Hb Hcol) as Hv.
  rewrite (bind_deref _ _ _ _ Hl), (bind_lift _ _ _ _ Hv).
  exists (cell b (ROW_COUNT - 1) col =? EMPTY).
  destruct (cell b (ROW_COUNT - 1) col =? EMPTY) eqn:Htop.
  - assert (Hvalid' : col ∈ valid_columns b).
    { apply valid_columns_spec. split; [done|]. by apply Z.eqb_eq. }
    destruct (drop_in_run h _ b col PLAYER_PIECE Hl Hb Hvalid' eq_refl)
      as (r & Hrow & Hr & _ & Hempty & _ & _).
    rewrite (bind_drop_in _ b r col PLAYER_PIECE) by done.
    pose proof (place_shape b r col PLAYER_PIECE Hb) as Hb'.
    assignments.
    rewrite (bind_deref _ (place b r col PLAYER_PIECE)) by apply lookup_insert_eq.
    pose proof (winning_move_Ret _ PLAYER_PIECE Hb') as Hwm.
    pose proof (get_valid_locations_Ret _ Hb') as Hgv.
    pose proof (terminal_moved b r col 0 Hb Hr Hcol Hempty Hterm) as Hmoved.
    change (mover 0) with PLAYER_PIECE in Hmoved.
    rewrite (bind_lift _ _ _ _ Hwm).
    destruct (wins _ PLAYER_PIECE) eqn:Hwins.
    { eexists _, _. split; [done|]. split; [reflexivity|]. assignments.
      split; [done|]. split.
      - eapply (moved_ok h s); try done.
        + by rewrite Heven'.
        + assignments. by rewrite Hwins.
        + assignments. by rewrite Heven'.
      - exists r. by rewrite Hmoved. }
    rewrite (bind_lift _ _ _ _ Hgv).
    destruct (length _ =? 0)%nat eqn:Hfull.
    { eexists _, _. split; [done|]. split; [reflexivity|]. assignments.
      split; [done|]. split.
      - eapply (moved_ok h s); try done.
        + by rewrite Heven'.
        + assignments. by rewrite Hwins, Hfull.
        + assignments. by rewrite Heven'.
      - exists r. by rewrite Hmoved. }
    eexists _, _. split; [done|]. split; [reflexivity|]. assignments.
    split; [done|]. split.
    + eapply (moved_ok h s); try done.
      * by rewrite Heven'.
      * assignments. by rewrite Hwins, Hfull.
      * assignments. by rewrite Heven', Hover.
    + exists r. by rewrite Hmoved, Hover.
  - eexists _, h. split; [done|]. split; [reflexivity|].
    assignments. split; [done|]. split; [|done].
    by eapply session_ok_fields.
Qed.

Lemma player_click_ok now mouse_x s (h : heap) :
  session_ok h s → game_over s = false → turn s = PLAYER →
  mouse_x < WINDOW_WIDTH →
  ∃ s' h', player_click now mouse_x s h = Ret (s', h') ∧ session_ok h' s'.
Proof.
  intros Hok Hover Hturn Hx.
  destruct (Z.lt_ge_cases mouse_x PANEL_WIDTH) as [Hlo | Hlo].
  - unfold player_click. rewrite (proj2 (Z.ltb_lt _ _) Hlo). by exists s, h.
  - pose proof Hok as (b & Hl & _).
    destruct (player_click_run now mouse_x s h b Hok Hl Hover Hturn Hlo Hx)
      as (valid & s' & h' & _ & Hrun & _ & Hok' & _).
    by exists s', h'.
Qed.

(** The bot's move, once the delay has passed. *)
Lemma bot_moves now1 now2 s (h : heap) :
  session_ok h s → turn s = AI → game_over s = false →
  2000 ≤ now2 - match ai_think_start s with None => now1 | Some t => t end →
  ∃ b col sc r s' h',
    h !! board_ref s = Some b ∧
    best_move b AI_PIECE = Ret (Some col, sc) ∧
    get_next_open_row b col = Ret (Some r) ∧
    bot_turn now1 now2 s h = Ret (s', h') ∧
    board_ref s' = board_ref s ∧
    h' !! board_ref s = Some (place b r col AI_PIECE) ∧
    history s' = history s ++ [(col, Some r, AI_PIECE)] ∧
    game_over s' = terminal (place b r col AI_PIECE) ∧
    (if game_over s' then turn s' = AI
     else turn s' = PLAYER ∧ ai_think_start s' = None) ∧
    session_ok h' s'.
Proof.
  intros Hok Hai Hover Hwait.
  pose proof (session_turn h s Hok Hover) as Heven. rewrite Hai in Heven.
  assert (Heven' : Nat.even (length (history s)) = false).
  { by destruct (Nat.even _). }
  clear Heven.
  destruct Hok as (b & Hl & Hrep & Hterm & _). rewrite Hover in Hterm.
  symmetry in Hterm.
  pose proof (replays_shape _ _ Hrep) as Hb.
  assert (Hmover : AI_PIECE = mover (length (history s))).
  { unfold mover. by rewrite Heven'. }
  pose proof (terminal_false b Hterm) as (_ & _ & Hvalid).
  destruct (best_move_spec b AI_PIECE Hb) as (res & Hbest & Hspec).
  destruct (valid_columns b) as [|c0 cols] eqn:Hcols; [done|].
  destruct Hspec as (col & sc & -> & Hcol & _). rewrite <- Hcols in Hcol.
  set (copy := fresh (dom h)).
  destruct (pick_best_move_run copy b AI_PIECE Hb eq_refl (<[copy := b]> h))
    as (res & h2 & Hres & Hrun & Hsub); [apply lookup_insert_eq|].
  rewrite Hbest in Hres. injection Hres as <-.
  assert (Hl2 : h2 !! board_ref s = Some b).
  { eapply lookup_weaken; [|done]. rewrite lookup_insert_ne; [done|].
    intros Heq. pose proof (fresh_loc_None h) as Hnone. fold copy in Hnone.
    rewrite Heq in Hnone. by rewrite Hl in Hnone. }
  destruct (drop_in_run h2 _ b col AI_PIECE Hl2 Hb Hcol eq_refl)
    as (r & Hrow & Hr & Hc & Hempty & _ & _).
  pose proof (place_shape b r col AI_PIECE Hb) as Hb'.
  assert (Htop : (cell b (ROW_COUNT - 1) col =? EMPTY) = true).
  { apply valid_columns_spec in Hcol as [_ Htop]. by apply Z.eqb_eq. }
  pose proof (terminal_moved b r col 1 Hb Hr Hc Hempty Hterm) as Hmoved.
  change (mover 1) with AI_PIECE in Hmoved.
  assert (Hstep : ∃ s', bot_turn now1 now2 s h
            = Ret (s', <[board_ref s := place b r col AI_PIECE]> h2) ∧
          board_ref s' = board_ref s ∧
          history s' = history s ++ [(col, Some r, AI_PIECE)] ∧
          game_over s' =
            (wins (place b r col AI_PIECE) AI_PIECE ||
             (length (valid_columns (place b r col AI_PIECE)) =? 0)%nat) ∧
          (if game_over s' then turn s' = AI
           else turn s' = PLAYER ∧ ai_think_start s' = None)).
  { unfold bot_turn. rewrite Hai, Hover. cbn [Z.eqb andb negb Pos.eqb AI].
    cbv zeta. rewrite (proj2 (Z.ltb_ge _ _) Hwait). assignments.
    rewrite (bind_ndarray_copy _ _ _ _ Hl). fold copy.
    rewrite (bind_run _ _ _ _ _ Hrun). cbn [fst].
    rewrite (bind_deref _ _ _ _ Hl2),
      (bind_lift _ _ _ _ (is_valid_location_cell b col Hb Hc)), Htop.
    rewrite (bind_drop_in _ b r col AI_PIECE) by done.
    rewrite (bind_deref _ (place b r col AI_PIECE)) by apply lookup_insert_eq.
    rewrite (bind_lift _ _ _ _ (winning_move_Ret _ AI_PIECE Hb')).
    destruct (wins _ AI_PIECE).
    { eexists. split; [reflexivity|]. assignments. by rewrite Hai. }
    rewrite (bind_lift _ _ _ _ (get_valid_locations_Ret _ Hb')).
    destruct (length _ =? 0)%nat eqn:Hfull.
    { eexists. split; [reflexivity|]. assignments. by rewrite Hai. }
    eexists. split; [reflexivity|]. assignments. by rewrite Hover. }
  destruct Hstep as (s' & Hstep & Hbr & Hhist & Hgo & Hnext).
  exists b, col, (Int sc), r, s', (<[board_ref s := place b r col AI_PIECE]> h2).
  split_and!; try done; [apply lookup_insert_eq|by rewrite Hmoved|].
  eapply (moved_ok h2 s); try done.
  - intros _. by exists (Int sc).
  - rewrite Heven'. by destruct (game_over s'); [|destruct Hnext].
Qed.

Lemma bot_turn_ok now1 now2 s (h : heap) :
  session_ok h s →
  ∃ s' h', bot_turn now1 now2 s h = Ret (s', h') ∧ session_ok h' s'.
Proof.
  intros Hok.
  destruct ((turn s =? AI) && negb (game_over s)) eqn:Hguard.
  - apply andb_true_iff in Hguard as [Hai%Z.eqb_eq Hover%negb_true_iff].
    destruct (now2 - match ai_think_start s with None => now1 | Some t => t end
              <? 2000) eqn:Hwait.
    + unfold bot_turn. rewrite Hai, Hover. cbn [Z.eqb andb negb Pos.eqb AI].
      cbv zeta. rewrite Hwait. eexists _, h. split; [reflexivity|].
      by eapply session_ok_fields.
    + apply Z.ltb_ge in Hwait.
      destruct (bot_moves now1 now2 s h Hok Hai Hover Hwait)
        as (b & col & sc & r & s' & h' & _ & _ & _ & Hrun & _ & _ & _ & _ & _ & Hok').
      by exists s', h'.
  - unfold bot_turn. rewrite Hguard. by exists s, h.
Qed.

Lemma running_ok (m : St session) (h : heap) :
  (∃ s' h', m h = Ret (s', h') ∧ session_ok h' s') →
  ∃ o h', (s ← m; mret (Running s)) h = Ret (o, h') ∧ outcome_ok h' o.
Proof.
  intros (s' & h' & Hrun & Hok). exists (Running s'), h'.
  by rewrite (bind_run _ _ _ _ _ Hrun).
Qed.

Lemma on_click_ok now pos s (h : heap) :
  session_ok h s → pos.1 < WINDOW_WIDTH →
  ∃ o h', on_click now pos s h = Ret (o, h') ∧ outcome_ok h' o.
Proof.
  intros Hok Hx. unfold on_click. cbv zeta.
  set (s0 := set_recommendation_msg "" (set_warning_msg "" s)).
  assert (Hok0 : session_ok h s0) by (by eapply session_ok_fields).
  change (game_over s0) with (game_over s).
  destruct (game_over s) eqn:Hover.
  - destruct (collidepoint play_again_rect pos);
      [apply running_ok, play_again_ok|].
    destruct (collidepoint exit_rect pos); [by exists Exited, h|].
    by exists (Running s0), h.
  - destruct (collidepoint undo_rect pos);
      [by apply running_ok, undo_ok|].
    destruct (collidepoint restart_rect pos);
      [apply running_ok, restart_ok|].
    destruct (collidepoint solution_rect pos);
      [by apply running_ok, solution_ok|].
    destruct (turn s0 =? PLAYER) eqn:Hturn; [|by exists (Running s0), h].
    apply Z.eqb_eq in Hturn. by apply running_ok, player_click_ok.
Qed.

Lemma handle_event_ok now e s (h : heap) :
  session_ok h s → in_window e →
  ∃ o h', handle_event now e s h = Ret (o, h') ∧ outcome_ok h' o.
Proof.
  intros Hok Hin. destruct e as [|pos|button pos|]; cbn [handle_event].
  - by exists Exited, h.
  - by exists (Running s), h.
  - destruct (button =? 1); [by apply on_click_ok|by exists (Running s), h].
  - by exists (Running s), h.
Qed.

Lemma handle_events_ok events s (h : heap) :
  session_ok h s → Forall (λ ne, in_window ne.2) events →
  ∃ o h', handle_events events s h = Ret (o, h') ∧ outcome_ok h' o.
Proof.
  revert s h. induction events as [|[now e] events IH]; intros s h Hok Hin.
  - by exists (Running s), h.
  - apply Forall_cons in Hin as [Hin Hins]. cbn [handle_events].
    destruct (handle_event_ok now e s h Hok Hin) as (o & h1 & Hrun & Hok1).
    rewrite (bind_run _ _ _ _ _ Hrun).
    destruct o as [s1|]; [by apply IH|by exists Exited, h1].
Qed.

Lemma loop_iteration_ok input s (h : heap) :
  session_ok h s → input_in_window input →
  ∃ o h', loop_iteration input s h = Ret (o, h') ∧ outcome_ok h' o.
Proof.
  destruct input as [[events now1] now2]. intros Hok Hin.
  unfold loop_iteration.
  destruct (handle_events_ok events s h Hok Hin) as (o & h1 & Hrun & Hok1).
  rewrite (bind_run _ _ _ _ _ Hrun).
  destruct o as [s1|]; [|by exists Exited, h1].
  by apply running_ok, bot_turn_ok.
Qed.

Lemma game_loop_ok inputs s (h : heap) :
  session_ok h s → Forall input_in_window inputs →
  ∃ o h', game_loop inputs s h = Ret (o, h') ∧ outcome_ok h' o.
Proof.
  revert s h. induction inputs as [|input inputs IH]; intros s h Hok Hin.
  - by exists (Running s), h.
  - apply Forall_cons in Hin as [Hin Hins]. cbn [game_loop].
    destruct (loop_iteration_ok input s h Hok Hin) as (o & h1 & Hrun & Hok1).
    rewrite (bind_run _ _ _ _ _ Hrun).
    destruct o as [s1|]; [by apply IH|by exists Exited, h1].
Qed.

Lemma run_game_ok inputs (h : heap) :
  Forall input_in_window inputs →
  ∃ o h', run_game inputs h = Ret (o, h') ∧ outcome_ok h' o.
Proof.
  intros Hin. unfold run_game.
  destruct (start_session_ok h) as (s0 & h0 & Hstart & Hok0).
  rewrite (bind_run _ _ _ _ _ Hstart). by apply game_loop_ok.
Qed.

(** ** The buttons *)


Lemma board_click_misses_panel (pos : Z * Z) :
  PANEL_WIDTH ≤ pos.1 →
  collidepoint undo_rect pos = false ∧ collidepoint restart_rect pos = false ∧
  collidepoint solution_rect pos = false.
Proof.
  destruct pos as [x y].
  unfold collidepoint, undo_rect, restart_rect, solution_rect.
  cbn [rect_left rect_top rect_width rect_height fst snd].
  change (PANEL_WIDTH - 60) with 260. unfold PANEL_WIDTH.
  rewrite !andb_false_iff, !Z.leb_gt, !Z.ltb_ge. lia.
Qed.

Lemma solution_misses_others (pos : Z * Z) :
  collidepoint solution_rect pos = true →
  collidepoint undo_rect pos = false ∧ collidepoint restart_rect pos = false.
Proof.
  destruct pos as [x y].
  unfold collidepoint, undo_rect, restart_rect, solution_rect.
  cbn [rect_left rect_top rect_width rect_height fst snd].
  change (WINDOW_HEIGHT - 240) with 460. change (WINDOW_HEIGHT - 170) with 530.
  change (WINDOW_HEIGHT - 100) with 600.
  rewrite !andb_true_iff, !andb_false_iff, !Z.leb_le, !Z.ltb_lt.
  rewrite !Z.leb_gt, !Z.ltb_ge. lia.
Qed.

(** ** The sample states *)

Local Ltac sample_column :=
  apply valid_columns_spec; split; [unfold COLUMN_COUNT; lia|reflexivity].

Local Ltac opening_replays :=
  apply (replays_snoc [] (zeros ROW_COUNT COLUMN_COUNT) 3 0);
    [constructor|reflexivity|sample_column|reflexivity|done].

Local Ltac new_ok :=
  exists (zeros ROW_COUNT COLUMN_COUNT);
  split; [reflexivity|]; split; [constructor|done].

Local Ltac opening_ok :=
  exists opening_board; split; [reflexivity|]; split; [opening_replays|done].

Local Ltac reply_ok :=
  exists reply_board; split; [reflexivity|]; split; [|done];
  apply (replays_snoc [(3%nat, Some 0%nat, PLAYER_PIECE)] opening_board 3 1);
    [opening_replays|reflexivity|sample_column|reflexivity
    |intros _; by exists (Int 3)].

Local Ltac two_turns_ok :=
  repeat constructor;
  unfold in_window, WINDOW_WIDTH, BOARD_WIDTH, PANEL_WIDTH, SQUARESIZE,
    COLUMN_COUNT; cbn; lia.

(** ** The game loop keeps the board and the history together *)

(** X8. Whatever the events and the readings of the clock, as long as the
    clicks are inside the window, [run_game] raises no exception, and while
    it runs the board is a 6 x 7 array without floating pieces that the
    recorded moves give back when they are replayed from the empty board. *)
Theorem run_game_safe (inputs : list (list (Z * event) * Z * Z)) (h : heap) :
  Forall input_in_window inputs →
  ∃ o h', run_game inputs h = Ret (o, h') ∧
    ∀ s, o = Running s →
      ∃ b, h' !! board_ref s = Some b ∧ board_shape b ∧ settled b ∧
           replays (history s) b.
Proof.
  intros Hin. destruct (run_game_ok inputs h Hin) as (o & h' & Hrun & Hok).
  exists o, h'. split; [done|]. intros s ->.
  destruct Hok as (b & Hl & Hrep & _ & _).
  exists b. split_and!; try done;
    [by eapply replays_shape|by eapply replays_settled].
Qed.

Lemma run_game_safe_witness :
  ∃ o h', run_game two_turns ∅ = Ret (o, h') ∧
    ∀ s, o = Running s →
      ∃ b, h' !! board_ref s = Some b ∧ board_shape b ∧ settled b ∧
           replays (history s) b.
Proof. apply (run_game_safe two_turns ∅). two_turns_ok. Defined.

(** X9. While the game runs, [game_over] is what [is_terminal_node] says
    of the board. *)
Theorem run_game_over_terminal (inputs : list (list (Z * event) * Z * Z))
    (h : heap) :
  Forall input_in_window inputs →
  ∃ o h', run_game inputs h = Ret (o, h') ∧
    ∀ s, o = Running s →
      ∃ b, h' !! board_ref s = Some b ∧
           is_terminal_node b = Ret (game_over s).
Proof.
  intros Hin. destruct (run_game_ok inputs h Hin) as (o & h' & Hrun & Hok).
  exists o, h'. split; [done|]. intros s ->.
  destruct Hok as (b & Hl & Hrep & Hterm & _).
  exists b. split; [done|].
  rewrite is_terminal_node_Ret by (by eapply replays_shape). by rewrite Hterm.
Qed.

Lemma run_game_over_terminal_witness :
  ∃ o h', run_game two_turns ∅ = Ret (o, h') ∧
    ∀ s, o = Running s →
      ∃ b, h' !! board_ref s = Some b ∧
           is_terminal_node b = Ret (game_over s).
Proof. apply (run_game_over_terminal two_turns ∅). two_turns_ok. Defined.

(** X10. The recorded moves alternate, the player's first, and while the
    game is not over the turn is that of the side that did not make the
    last of them. *)
Theorem run_game_alternates (inputs : list (list (Z * event) * Z * Z))
    (h : heap) :
  Forall input_in_window inputs →
  ∃ o h', run_game inputs h = Ret (o, h') ∧
    ∀ s, o = Running s →
      (∀ i col row piece, history s !! i = Some (col, row, piece) →
         piece = if Nat.even i then PLAYER_PIECE else AI_PIECE) ∧
      (game_over s = false →
         turn s = if Nat.even (length (history s)) then PLAYER else AI).
Proof.
  intros Hin. destruct (run_game_ok inputs h Hin) as (o & h' & Hrun & Hok).
  exists o, h'. split; [done|]. intros s ->. split.
  - destruct Hok as (b & _ & Hrep & _). intros i col row piece Hi.
    apply (replays_mover _ _ Hrep i _ Hi).
  - by apply (session_turn h').
Qed.

Lemma run_game_alternates_witness :
  ∃ o h', run_game two_turns ∅ = Ret (o, h') ∧
    ∀ s, o = Running s →
      (∀ i col row piece, history s !! i = Some (col, row, piece) →
         piece = if Nat.even i then PLAYER_PIECE else AI_PIECE) ∧
      (game_over s = false →
         turn s = if Nat.even (length (history s)) then PLAYER else AI).
Proof. apply (run_game_alternates two_turns ∅). two_turns_ok. Defined.

(** ** The turns *)

(** X11. A click on the board when it is the player's turn, in a state the
    loop can be in: the column is that of the abscissa; if it is not full
    the player's piece drops there, the move is recorded, the game is over
    exactly if the new board is terminal, and otherwise the turn goes to
    the bot; if it is full nothing changes but the warning. *)
Theorem player_click_moves (now : Z) (pos : Z * Z) (s : session) (h : heap)
    (b : board) :
  session_ok h s → h !! board_ref s = Some b →
  game_over s = false → turn s = PLAYER →
  PANEL_WIDTH ≤ pos.1 → pos.1 < WINDOW_WIDTH →
  let col := Z.to_nat ((pos.1 - PANEL_WIDTH) / SQUARESIZE) in
  (col < COLUMN_COUNT)%nat ∧
  ∃ valid s' h',
    is_valid_location b col = Ret valid ∧
    on_click now pos s h = Ret (Running s', h') ∧
    board_ref s' = board_ref s ∧
    if valid then
      ∃ r, get_next_open_row b col = Ret (Some r) ∧
        h' = <[board_ref s := place b r col PLAYER_PIECE]> h ∧
        history s' = history s ++ [(col, Some r, PLAYER_PIECE)] ∧
        is_terminal_node (place b r col PLAYER_PIECE) = Ret (game_over s') ∧
        (if game_over s' then turn s' = PLAYER
         else turn s' = AI ∧ ai_think_start s' = Some now)
    else
      h' = h ∧ history s' = history s ∧ turn s' = PLAYER ∧
      game_over s' = false ∧
      warning_msg s' = "Column " +:+ pretty (col + 1)%nat +:+ " is full.".
Proof.
  intros Hok Hl Hover Hturn Hlo Hhi col.
  split; [by apply window_column|].
  destruct (board_click_misses_panel pos Hlo) as (Hundo & Hrestart & Hsolution).
  unfold on_click. cbv zeta.
  set (s0 := set_recommendation_msg "" (set_warning_msg "" s)).
  assert (Hok0 : session_ok h s0) by (by eapply session_ok_fields).
  change (game_over s0) with (game_over s). change (turn s0) with (turn s).
  rewrite Hover, Hundo, Hrestart, Hsolution, Hturn. cbn [Z.eqb PLAYER].
  destruct (player_click_run now pos.1 s0 h b Hok0 Hl Hover Hturn Hlo Hhi)
    as (valid & s' & h' & Hvalid & Hrun & Href & _ & Hrest).
  fold col in Hvalid, Hrest.
  rewrite (bind_run _ _ _ _ _ Hrun).
  exists valid, s', h'. split_and!; [done..|].
  destruct valid; [|done].
  destruct Hrest as (r & Hrow & Hh' & Hhist & Hg & Ht).
  exists r. split_and!; try done.
  rewrite is_terminal_node_Ret, Hg; [done|].
  destruct Hok as (b' & Hlb & Hrep & _). rewrite Hl in Hlb.
  injection Hlb as <-. by apply place_shape, (replays_shape (history s)).
Qed.

Lemma player_click_moves_witness :
  (3 < COLUMN_COUNT)%nat ∧
  ∃ valid s' h',
    is_valid_location (zeros ROW_COUNT COLUMN_COUNT) 3 = Ret valid ∧
    on_click 0 (670, 300) new_session new_heap = Ret (Running s', h') ∧
    board_ref s' = board_ref new_session ∧
    if valid then
      ∃ r, get_next_open_row (zeros ROW_COUNT COLUMN_COUNT) 3 = Ret (Some r) ∧
        h' = <[board_ref new_session :=
                 place (zeros ROW_COUNT COLUMN_COUNT) r 3 PLAYER_PIECE]> new_heap ∧
        history s' = history new_session ++ [(3%nat, Some r, PLAYER_PIECE)] ∧
        is_terminal_node (place (zeros ROW_COUNT COLUMN_COUNT) r 3 PLAYER_PIECE)
          = Ret (game_over s') ∧
        (if game_over s' then turn s' = PLAYER
         else turn s' = AI ∧ ai_think_start s' = Some 0)
    else
      h' = new_heap ∧ history s' = history new_session ∧ turn s' = PLAYER ∧
      game_over s' = false ∧
      warning_msg s' = "Column " +:+ pretty (3 + 1)%nat +:+ " is full.".
Proof.
  apply (player_click_moves 0 (670, 300) new_session new_heap
           (zeros ROW_COUNT COLUMN_COUNT));
    [new_ok|reflexivity|reflexivity|reflexivity|vm_compute; discriminate
    |reflexivity].
Defined.

(** X12. When it is the bot's turn and two seconds have passed, the bot
    drops its piece in the column [pick_best_move] gives for the board, at
    the row [get_next_open_row] gives, and records the move; the game is
    over exactly if the new board is terminal, and otherwise the turn goes
    to the player. The branches for no column and for an invalid column are
    never taken. *)
Theorem bot_turn_moves (now1 now2 : Z) (s : session) (h : heap) :
  session_ok h s → turn s = AI → game_over s = false →
  2000 ≤ now2 - match ai_think_start s with None => now1 | Some t => t end →
  ∃ b col sc hc r s' h',
    h !! board_ref s = Some b ∧
    pick_best_move (board_ref s) AI_PIECE h = Ret ((Some col, sc), hc) ∧
    get_next_open_row b col = Ret (Some r) ∧
    bot_turn now1 now2 s h = Ret (s', h') ∧
    board_ref s' = board_ref s ∧
    h' !! board_ref s = Some (place b r col AI_PIECE) ∧
    history s' = history s ++ [(col, Some r, AI_PIECE)] ∧
    is_terminal_node (place b r col AI_PIECE) = Ret (game_over s') ∧
    (if game_over s' then turn s' = AI
     else turn s' = PLAYER ∧ ai_think_start s' = None).
Proof.
  intros Hok Hai Hover Hwait.
  destruct (bot_moves now1 now2 s h Hok Hai Hover Hwait)
    as (b & col & sc & r & s' & h' & Hl & Hbest & Hrow & Hrun & Hb & Hl' & Hh
        & Hg & Ht & _).
  destruct Hok as (b' & Hlb & Hrep & _). rewrite Hl in Hlb. injection Hlb as <-.
  pose proof (replays_shape _ _ Hrep) as Hshape.
  destruct (pick_best_move_run (board_ref s) b AI_PIECE Hshape eq_refl h Hl)
    as (res & hc & Hres & Hpick & _).
  rewrite Hbest in Hres. injection Hres as <-.
  exists b, col, sc, hc, r, s', h'. split_and!; try done.
  rewrite is_terminal_node_Ret, Hg by (by apply place_shape). done.
Qed.

Lemma bot_turn_moves_witness :
  ∃ b col sc hc r s' h',
    opening_heap !! board_ref opening_session = Some b ∧
    pick_best_move (board_ref opening_session) AI_PIECE opening_heap
      = Ret ((Some col, sc), hc) ∧
    get_next_open_row b col = Ret (Some r) ∧
    bot_turn 0 2000 opening_session opening_heap = Ret (s', h') ∧
    board_ref s' = board_ref opening_session ∧
    h' !! board_ref opening_session = Some (place b r col AI_PIECE) ∧
    history s' = history opening_session ++ [(col, Some r, AI_PIECE)] ∧
    is_terminal_node (place b r col AI_PIECE) = Ret (game_over s') ∧
    (if game_over s' then turn s' = AI
     else turn s' = PLAYER ∧ ai_think_start s' = None).
Proof.
  apply (bot_turn_moves 0 2000 opening_session opening_heap);
    [opening_ok|reflexivity|reflexivity|vm_compute; discriminate].
Defined.

(** ** The buttons of the side panel *)

(** X13. A click on "Undo move" while the game runs takes the last move
    back: its cell is Empty again, the history is the one before the move,
    the turn is that of the side that made it, and the board is not
    terminal. *)
Theorem undo_click_reverts (now : Z) (pos : Z * Z) (s : session) (h : heap)
    (hs : list move) (col : nat) (row : option nat) (piece : Z) :
  session_ok h s → game_over s = false →
  history s = hs ++ [(col, row, piece)] →
  collidepoint undo_rect pos = true →
  ∃ s' h' b0 r,
    on_click now pos s h = Ret (Running s', h') ∧
    row = Some r ∧
    h !! board_ref s = Some (place b0 r col piece) ∧
    getitem b0 r col = Ret EMPTY ∧
    board_ref s' = board_ref s ∧ h' !! board_ref s = Some b0 ∧
    history s' = hs ∧
    turn s' = (if piece =? PLAYER_PIECE then PLAYER else AI) ∧
    game_over s' = false ∧
    is_terminal_node b0 = Ret false.
Proof.
  intros Hok Hover Hhist Hhit. unfold on_click. cbv zeta.
  set (s0 := set_recommendation_msg "" (set_warning_msg "" s)).
  assert (Hok0 : session_ok h s0) by (by eapply session_ok_fields).
  change (game_over s0) with (game_over s). rewrite Hover, Hhit.
  destruct (undo_last now s0 h hs col row piece Hok0 Hhist)
    as (s' & b0 & r & -> & -> & Hl & Hr & Hc & Hempty & Hrep & Hrow & _ & Hrun
        & _ & Hb & Hh & Ht & Hg & Hok').
  rewrite (bind_run _ _ _ _ _ Hrun).
  exists s', (<[board_ref s := b0]> h), b0, r.
  pose proof (replays_shape _ _ Hrep) as Hb0.
  destruct Hok' as (b1 & Hl1 & _ & Hterm & _).
  change (board_ref s0) with (board_ref s) in *.
  rewrite Hb, lookup_insert_eq in Hl1. injection Hl1 as <-.
  split_and!; try done.
  - by apply getitem_EMPTY_cell.
  - apply lookup_insert_eq.
  - rewrite Ht. unfold mover. by destruct (Nat.even (length hs)).
  - rewrite is_terminal_node_Ret by done. fold (terminal b0).
    by rewrite <- Hterm, Hg.
Qed.

Lemma undo_click_reverts_witness :
  ∃ s' h' b0 r,
    on_click 0 (100, 480) opening_session opening_heap = Ret (Running s', h') ∧
    Some 0%nat = Some r ∧
    opening_heap !! board_ref opening_session
      = Some (place b0 r 3 PLAYER_PIECE) ∧
    getitem b0 r 3 = Ret EMPTY ∧
    board_ref s' = board_ref opening_session ∧
    h' !! board_ref opening_session = Some b0 ∧
    history s' = [] ∧
    turn s' = (if PLAYER_PIECE =? PLAYER_PIECE then PLAYER else AI) ∧
    game_over s' = false ∧
    is_terminal_node b0 = Ret false.
Proof.
  apply (undo_click_reverts 0 (100, 480) opening_session opening_heap
           [] 3 (Some 0%nat) PLAYER_PIECE);
    [opening_ok|reflexivity|reflexivity|reflexivity].
Defined.

(** X14. The bot's move taken back is made again: after a click on "Undo
    move" that takes back a move of the bot, the bot's turn two seconds
    later gives the board and the history of before the click. *)
Theorem undo_bot_move_replayed (now now1 now2 : Z) (pos : Z * Z) (s : session)
    (h : heap) (hs : list move) (col : nat) (row : option nat) :
  session_ok h s → game_over s = false →
  history s = hs ++ [(col, row, AI_PIECE)] →
  collidepoint undo_rect pos = true →
  2000 ≤ now2 - now →
  ∃ b s1 h1 s2 h2,
    h !! board_ref s = Some b ∧
    on_click now pos s h = Ret (Running s1, h1) ∧
    history s1 = hs ∧ turn s1 = AI ∧
    bot_turn now1 now2 s1 h1 = Ret (s2, h2) ∧
    board_ref s2 = board_ref s ∧ history s2 = history s ∧
    h2 !! board_ref s = Some b.
Proof.
  intros Hok Hover Hhist Hhit Hwait. unfold on_click. cbv zeta.
  set (s0 := set_recommendation_msg "" (set_warning_msg "" s)).
  assert (Hok0 : session_ok h s0) by (by eapply session_ok_fields).
  change (game_over s0) with (game_over s). rewrite Hover, Hhit.
  destruct (undo_last now s0 h hs col row AI_PIECE Hok0 Hhist)
    as (s1 & b0 & r & -> & Hmover & Hl & _ & _ & _ & _ & Hrow & Hbot & Hrun
        & Hstart & Hb1 & Hh1 & Ht1 & Hg1 & Hok1).
  rewrite (bind_run _ _ _ _ _ Hrun).
  assert (Hodd : Nat.even (length hs) = false).
  { unfold mover in Hmover. by destruct (Nat.even (length hs)). }
  rewrite Hodd in Hstart, Ht1. destruct (Hbot Hodd) as [sc Hbest].
  change (board_ref s0) with (board_ref s) in *.
  destruct (bot_moves now1 now2 s1 _ Hok1 Ht1 Hg1)
    as (b & col' & sc' & r' & s2 & h2 & Hlb & Hbest' & Hrow' & Hbot' & Hb2 & Hl2
        & Hh2 & _); [by rewrite Hstart|].
  rewrite Hb1, lookup_insert_eq in Hlb. injection Hlb as <-.
  rewrite Hbest in Hbest'. injection Hbest' as <- <-.
  rewrite Hrow in Hrow'. injection Hrow' as <-.
  exists (place b0 r col AI_PIECE), s1, (<[board_ref s := b0]> h), s2, h2.
  split_and!; try done.
  - congruence.
  - by rewrite Hh2, Hh1, Hhist.
  - by rewrite <- Hb1.
Qed.

Lemma undo_bot_move_replayed_witness :
  ∃ b s1 h1 s2 h2,
    reply_heap !! board_ref reply_session = Some b ∧
    on_click 0 (100, 480) reply_session reply_heap = Ret (Running s1, h1) ∧
    history s1 = [(3%nat, Some 0%nat, PLAYER_PIECE)] ∧ turn s1 = AI ∧
    bot_turn 1000 2000 s1 h1 = Ret (s2, h2) ∧
    board_ref s2 = board_ref reply_session ∧
    history s2 = history reply_session ∧
    h2 !! board_ref reply_session = Some b.
Proof.
  apply (undo_bot_move_replayed 0 1000 2000 (100, 480) reply_session reply_heap
           [(3%nat, Some 0%nat, PLAYER_PIECE)] 3 (Some 1%nat));
    [reply_ok|reflexivity|reflexivity|reflexivity|vm_compute; discriminate].
Defined.



(** X16. A click on "Request Solution" while the game runs always gives a
    recommendation, the column [pick_best_move] gives for the player's
    piece, and leaves the board, the history and the turn as they are. *)
Theorem solution_click_recommends (now : Z) (pos : Z * Z) (s : session)
    (h : heap) (b : board) :
  session_ok h s → h !! board_ref s = Some b → game_over s = false →
  collidepoint solution_rect pos = true →
  ∃ col sc hc s' h',
    pick_best_move (board_ref s) PLAYER_PIECE h = Ret ((Some col, sc), hc) ∧
    on_click now pos s h = Ret (Running s', h') ∧
    recommendation_msg s' = "Recommended move:" +:+ nl +:+ drop_message col ∧
    status_msg s' = "" ∧ warning_msg s' = "" ∧
    board_ref s' = board_ref s ∧ h' !! board_ref s = Some b ∧
    history s' = history s ∧ turn s' = turn s ∧ game_over s' = false.
Proof.
  intros Hok Hl Hover Hhit.
  destruct (solution_misses_others pos Hhit) as [Hundo Hrestart].
  destruct Hok as (b' & Hlb & Hrep & Hterm & _). rewrite Hl in Hlb.
  injection Hlb as <-. rewrite Hover in Hterm. symmetry in Hterm.
  pose proof (replays_shape _ _ Hrep) as Hb.
  destruct (get_recommended_move_run (board_ref s) b h Hl Hb Hterm)
    as (col & sc & h' & Hbest & Hrun & Hsub).
  destruct (pick_best_move_run (board_ref s) b PLAYER_PIECE Hb eq_refl h Hl)
    as (res & hc & Hres & Hpick & _).
  rewrite Hbest in Hres. injection Hres as <-.
  unfold on_click. cbv zeta.
  set (s0 := set_recommendation_msg "" (set_warning_msg "" s)).
  change (game_over s0) with (game_over s).
  rewrite Hover, Hundo, Hrestart, Hhit.
  unfold solution. change (game_over s0) with (game_over s). rewrite Hover.
  change (board_ref s0) with (board_ref s).
  rewrite (bind_run _ _ _ _ _ (bind_run _ _ _ _ _ Hrun)).
  exists col, sc, hc. eexists _, h'. cbn [fst snd].
  split; [done|]. split; [reflexivity|]. subst s0.
  cbn [set_status_msg set_recommendation_msg set_warning_msg
       board_ref game_over turn history status_msg warning_msg
       recommendation_msg].
  split_and!; try done. by eapply lookup_weaken.
Qed.

Lemma solution_click_recommends_witness :
  ∃ col sc hc s' h',
    pick_best_move (board_ref new_session) PLAYER_PIECE new_heap
      = Ret ((Some col, sc), hc) ∧
    on_click 0 (100, 620) new_session new_heap = Ret (Running s', h') ∧
    recommendation_msg s' = "Recommended move:" +:+ nl +:+ drop_message col ∧
    status_msg s' = "" ∧ warning_msg s' = "" ∧
    board_ref s' = board_ref new_session ∧
    h' !! board_ref new_session = Some (zeros ROW_COUNT COLUMN_COUNT) ∧
    history s' = history new_session ∧ turn s' = turn new_session ∧
    game_over s' = false.
Proof.
  apply (solution_click_recommends 0 (100, 620) new_session new_heap
           (zeros ROW_COUNT COLUMN_COUNT));
    [new_ok|reflexivity|reflexivity|reflexivity].
Defined.

(** ** The right edge of the window *)

(** X17. The guard of the player's click lets the abscissa
    [PANEL_WIDTH + BOARD_WIDTH] through: a click there when it is the
    player's turn asks for column 7 and raises. *)
Theorem click_on_right_edge_raises (now y : Z) (s : session) (h : heap)
    (b : board) :
  h !! board_ref s = Some b → board_shape b →
  game_over s = false → turn s = PLAYER →
  handle_event now (MOUSEBUTTONDOWN 1 (PANEL_WIDTH + BOARD_WIDTH, y)) s h = Raise.
Proof.
  intros Hl Hb Hover Hturn. cbn [handle_event Z.eqb Pos.eqb].
  unfold on_click. cbv zeta.
  set (s0 := set_recommendation_msg "" (set_warning_msg "" s)).
  change (game_over s0) with (game_over s).
  change (turn s0) with (turn s).
  rewrite Hover, Hturn.
  change (collidepoint undo_rect (PANEL_WIDTH + BOARD_WIDTH, y)) with false.
  change (collidepoint restart_rect (PANEL_WIDTH + BOARD_WIDTH, y)) with false.
  change (collidepoint solution_rect (PANEL_WIDTH + BOARD_WIDTH, y)) with false.
  cbn [Z.eqb PLAYER]. unfold mbind at 1, St_bind at 1.
  unfold player_click. cbn [fst].
  change ((PANEL_WIDTH + BOARD_WIDTH <? PANEL_WIDTH) ||
          (PANEL_WIDTH + BOARD_WIDTH <? PANEL_WIDTH + BOARD_WIDTH)) with false.
  change (Z.to_nat ((PANEL_WIDTH + BOARD_WIDTH - PANEL_WIDTH) / SQUARESIZE))
    with 7%nat.
  cbv beta iota zeta. change (board_ref s0) with (board_ref s).
  rewrite (bind_deref _ _ _ _ Hl).
  destruct (board_shape_row b (ROW_COUNT - 1) Hb) as (cells & Hcells & Hlen);
    [unfold ROW_COUNT; lia|].
  assert (Hraise : is_valid_location b 7 = Raise).
  { unfold is_valid_location, getitem. rewrite Hcells.
    by rewrite (lookup_ge_None_2 cells 7) by (rewrite Hlen; unfold COLUMN_COUNT; lia). }
  by rewrite Hraise.
Qed.

Lemma click_on_right_edge_raises_witness :
  handle_event 0 (MOUSEBUTTONDOWN 1 (PANEL_WIDTH + BOARD_WIDTH, 300))
    new_session new_heap = Raise.
Proof.
  apply (click_on_right_edge_raises 0 300 new_session new_heap
           (zeros ROW_COUNT COLUMN_COUNT));
    [reflexivity|apply zeros_shape|reflexivity|reflexivity].
Defined.

(** * The position score *)

(** ** The score as a sum over windows *)

Lemma list_of_length_7 {A} (l : list A) :
  length l = 7%nat → ∃ a0 a1 a2 a3 a4 a5 a6, l = [a0; a1; a2; a3; a4; a5; a6].
Proof.
  intros Hlen. do 7 (destruct l as [|? l]; [done|]).
  destruct l; [|done]. by eexists _, _, _, _, _, _, _.
Qed.

(** Name the 42 cells of a board of the right shape. *)
Local Ltac explicit_board b Hb :=
  let Hlen := fresh "Hlen" in
  let Hrows := fresh "Hrows" in
  destruct Hb as [Hlen Hrows]; unfold ROW_COUNT, COLUMN_COUNT in Hlen, Hrows;
  do 6 (destruct b as [|? b]; [done|]); destruct b; [|done];
  repeat match goal with
  | H : Forall _ (_ :: _) |- _ => apply Forall_cons in H as [?%list_of_length_7 H]
  end;
  repeat match goal with
  | H : ∃ _, _ |- _ => destruct H as [? H]
  end;
  subst; clear Hlen Hrows.

(** Both sides are sums of the same window scores. *)
Local Ltac by_windows b Hb :=
  explicit_board b Hb; cbv -[evaluate_window count Z.add Z.mul]; f_equal; lia.

(** A board of the right shape, cell by cell. *)
Lemma board_shape_cells b :
  board_shape b →
  b = (λ r, (λ c, cell b r c) <$> seq 0 COLUMN_COUNT) <$> seq 0 ROW_COUNT.
Proof. intros Hb. by explicit_board b Hb. Qed.

(** ** The score in a mirror *)

Lemma evaluate_window_reverse (w : list Z) (piece : Z) :
  evaluate_window (reverse w) piece = evaluate_window w piece.
Proof.
  unfold evaluate_window.
  by rewrite !(count_Permutation (reverse w) w _ (reverse_Permutation w)).
Qed.

Lemma sum_over_ext rs cs (f g : nat → nat → Z) :
  (∀ r c, r ∈ rs → c ∈ cs → f r c = g r c) →
  sum_over rs cs f = sum_over rs cs g.
Proof.
  intros Hfg. unfold sum_over.
  induction rs as [|r rs IH]; [done|]. cbn [foldr].
  rewrite IH by (intros; apply Hfg; [by right|done]).
  generalize (foldr (λ r acc, foldr (λ c acc, g r c + acc) acc cs) 0 rs).
  intros acc. assert (Hr : ∀ c, c ∈ cs → f r c = g r c).
  { intros c Hc. apply Hfg; [by left|done]. }
  clear IH Hfg. induction cs as [|c cs IH]; [done|]. cbn [foldr].
  rewrite Hr by left. rewrite IH; [done|]. intros c' Hc'. apply Hr. by right.
Qed.

(** The windows of a row or of a band of diagonals, from the right. *)
Lemma sum_over_flip_4 rs (f : nat → nat → Z) :
  sum_over rs (seq 0 4) (λ r c, f r (3 - c)%nat) = sum_over rs (seq 0 4) f.
Proof.
  unfold sum_over. induction rs as [|r rs IH]; [done|].
  cbn [foldr]. rewrite IH.
  generalize (foldr (λ r acc, foldr (λ c acc, f r c + acc) acc (seq 0 4)) 0 rs).
  intros acc. cbn [foldr seq Nat.sub]. lia.
Qed.

(** The columns, from the right. *)
Lemma sum_over_flip_7 rs (f : nat → nat → Z) :
  sum_over rs (seq 0 7) (λ r c, f r (6 - c)%nat) = sum_over rs (seq 0 7) f.
Proof.
  unfold sum_over. induction rs as [|r rs IH]; [done|].
  cbn [foldr]. rewrite IH.
  generalize (foldr (λ r acc, foldr (λ c acc, f r c + acc) acc (seq 0 7)) 0 rs).
  intros acc. cbn [foldr seq Nat.sub]. lia.
Qed.

Section mirror_windows.
Context (b : board) (Hb : board_shape b).

Local Ltac mirror_cells c :=
  cases_below 4%nat c; [..|lia];
  rewrite !cell_mirror by (done || (unfold COLUMN_COUNT; lia)); reflexivity.

Lemma row_window_mirror r c :
  (c < 4)%nat →
  row_window (mirror_board b) r c = reverse (row_window b r (3 - c)).
Proof. intros Hc. unfold row_window. mirror_cells c. Qed.

Lemma column_window_mirror r c :
  (c < 7)%nat →
  column_window (mirror_board b) r c = column_window b r (6 - c).
Proof.
  intros Hc. unfold column_window.
  by rewrite !cell_mirror by (done || (unfold COLUMN_COUNT; lia)).
Qed.

Lemma rising_window_mirror r c :
  (c < 4)%nat →
  rising_window (mirror_board b) r c = reverse (falling_window b r (3 - c)).
Proof. intros Hc. unfold rising_window, falling_window. mirror_cells c. Qed.

Lemma falling_window_mirror r c :
  (c < 4)%nat →
  falling_window (mirror_board b) r c = reverse (rising_window b r (3 - c)).
Proof. intros Hc. unfold rising_window, falling_window. mirror_cells c. Qed.

Lemma center_column_mirror : center_column (mirror_board b) = center_column b.
Proof.
  unfold center_column. apply list_fmap_ext. intros i r Hr.
  by rewrite cell_mirror by (done || (unfold COLUMN_COUNT; cbn; lia)).
Qed.

Lemma position_score_mirror piece :
  position_score (mirror_board b) piece = position_score b piece.
Proof.
  unfold position_score. rewrite center_column_mirror.
  change (COLUMN_COUNT - 3)%nat with 4%nat. change COLUMN_COUNT with 7%nat.
  rewrite (sum_over_ext _ (seq 0 4)
             (λ r c, evaluate_window (row_window (mirror_board b) r c) piece)
             (λ r c, evaluate_window (row_window b r (3 - c)) piece)).
  2:{ intros r c _ Hc%elem_of_seq.
      by rewrite row_window_mirror, evaluate_window_reverse by lia. }
  rewrite (sum_over_flip_4 _ (λ r c, evaluate_window (row_window b r c) piece)).
  rewrite (sum_over_ext _ (seq 0 7)
             (λ r c, evaluate_window (column_window (mirror_board b) r c) piece)
             (λ r c, evaluate_window (column_window b r (6 - c)) piece)).
  2:{ intros r c _ Hc%elem_of_seq. by rewrite column_window_mirror by lia. }
  rewrite (sum_over_flip_7 _ (λ r c, evaluate_window (column_window b r c) piece)).
  rewrite (sum_over_ext _ (seq 0 4)
             (λ r c, evaluate_window (rising_window (mirror_board b) r c) piece)
             (λ r c, evaluate_window (falling_window b r (3 - c)) piece)).
  2:{ intros r c _ Hc%elem_of_seq.
      by rewrite rising_window_mirror, evaluate_window_reverse by lia. }
  rewrite (sum_over_flip_4 _ (λ r c, evaluate_window (falling_window b r c) piece)).
  rewrite (sum_over_ext _ (seq 0 4)
             (λ r c, evaluate_window (falling_window (mirror_board b) r c) piece)
             (λ r c, evaluate_window (rising_window b r (3 - c)) piece)).
  2:{ intros r c _ Hc%elem_of_seq.
      by rewrite falling_window_mirror, evaluate_window_reverse by lia. }
  rewrite (sum_over_flip_4 _ (λ r c, evaluate_window (rising_window b r c) piece)).
  lia.
Qed.
End mirror_windows.

Lemma score_position_mirror_board b piece :
  board_shape b →
  score_position (mirror_board b) piece = score_position b piece.
Proof.
  intros Hb. transitivity (Ret (position_score b piece)).
  - rewrite <- (position_score_mirror b Hb). by_windows b Hb.
  - symmetry. by_windows b Hb.
Qed.

(** ** Moves in a mirror *)

(** Boards of the right shape with the same cells are equal. *)
Lemma board_ext b b' :
  board_shape b → board_shape b' →
  (∀ r c, (r < ROW_COUNT)%nat → (c < COLUMN_COUNT)%nat →
     cell b r c = cell b' r c) →
  b = b'.
Proof.
  intros Hb Hb' Hcells.
  rewrite (board_shape_cells b Hb), (board_shape_cells b' Hb').
  apply list_fmap_ext. intros i r Hr%lookup_seq.
  apply list_fmap_ext. intros j c Hc%lookup_seq.
  apply Hcells; lia.
Qed.

Lemma place_mirror b r c v :
  board_shape b → (r < ROW_COUNT)%nat → (c < COLUMN_COUNT)%nat →
  place (mirror_board b) r c v = mirror_board (place b r (COLUMN_COUNT - 1 - c) v).
Proof.
  intros Hb Hr Hc.
  apply board_ext;
    [by apply place_shape, mirror_board_shape
    |by apply mirror_board_shape, place_shape|].
  intros r' c' Hr' Hc'.
  rewrite cell_place by (done || by apply mirror_board_shape).
  rewrite !cell_mirror by (done || by apply place_shape).
  rewrite cell_place by (done || (unfold COLUMN_COUNT in *; lia)).
  unfold COLUMN_COUNT in *.
  destruct (decide (r' = r ∧ c' = c)) as [[-> ->]|Hne].
  - by rewrite decide_True.
  - rewrite decide_False; [done|]. intros [-> Heq]. apply Hne. split; [done|lia].
Qed.

Lemma get_next_open_row_mirror b c :
  board_shape b → (c < COLUMN_COUNT)%nat →
  get_next_open_row (mirror_board b) c
  = get_next_open_row b (COLUMN_COUNT - 1 - c).
Proof.
  intros Hb Hc. pose proof (mirror_board_shape b Hb) as Hm.
  assert (Hc' : (COLUMN_COUNT - 1 - c < COLUMN_COUNT)%nat)
    by (unfold COLUMN_COUNT; lia).
  destruct (get_next_open_row_find _ c Hm Hc) as (res & -> & Hres).
  destruct (get_next_open_row_find b _ Hb Hc') as (res' & -> & Hres').
  f_equal.
  destruct res as [r|], res' as [r'|].
  - destruct Hres as (Hr & Hempty & Hlow), Hres' as (Hr' & Hempty' & Hlow').
    rewrite cell_mirror in Hempty by done. f_equal.
    destruct (Nat.lt_trichotomy r r') as [Hlt | [-> | Hlt]]; [|done|].
    + by destruct (Hlow' r Hlt).
    + specialize (Hlow r' Hlt). by rewrite cell_mirror in Hlow.
  - destruct Hres as (Hr & Hempty & _). rewrite cell_mirror in Hempty by done.
    by destruct (Hres' r Hr).
  - destruct Hres' as (Hr' & Hempty' & _). specialize (Hres r' Hr').
    by rewrite cell_mirror in Hres.
  - done.
Qed.

Lemma valid_columns_mirror b c :
  board_shape b → (c < COLUMN_COUNT)%nat →
  c ∈ valid_columns (mirror_board b) ↔
  (COLUMN_COUNT - 1 - c)%nat ∈ valid_columns b.
Proof.
  intros Hb Hc. rewrite !valid_columns_spec, cell_mirror by done.
  unfold COLUMN_COUNT in *. intuition lia.
Qed.

Lemma simulate_mirror b piece c :
  board_shape b → (c < COLUMN_COUNT)%nat →
  simulate (mirror_board b) piece c = simulate b piece (COLUMN_COUNT - 1 - c).
Proof.
  intros Hb Hc. unfold simulate. rewrite get_next_open_row_mirror by done.
  assert (Hc' : (COLUMN_COUNT - 1 - c < COLUMN_COUNT)%nat)
    by (unfold COLUMN_COUNT; lia).
  destruct (get_next_open_row_find b _ Hb Hc') as ([r|] & -> & Hres); [|done].
  destruct Hres as (Hr & _). rewrite !bind_Ret.
  rewrite place_mirror by done.
  by apply score_position_mirror_board, place_shape.
Qed.

(** X18. On a 6 x 7 board [score_position] does not raise, and its result
    is three times the number of cells of the middle column that hold the
    piece, plus the scores [evaluate_window] gives to the 24 windows along
    the rows, the 21 along the columns and the 12 along each diagonal
    direction. *)
Theorem score_position_windows (b : board) (piece : Z) :
  board_shape b → score_position b piece = Ret (position_score b piece).
Proof. intros Hb. by_windows b Hb. Qed.

Lemma score_position_windows_witness :
  score_position sample_board PLAYER_PIECE
  = Ret (position_score sample_board PLAYER_PIECE).
Proof.
  apply (score_position_windows sample_board PLAYER_PIECE).
  split; [reflexivity|repeat constructor].
Defined.

(** X19. The score of a position and the choice of a move in a mirror:
    [score_position] gives the mirrored board the same score; the drop in
    column [col] of the mirrored board is scored like the drop in column
    [6 - col] of the board; so [pick_best_move] finds the same best score
    on both, and the column it returns on the mirrored board is the mirror
    image of a column at or to the right of the one it returns on the
    board. *)
Theorem pick_best_move_mirror (h : heap) (l lm : loc) (b : board) (piece : Z) :
  h !! l = Some b → h !! lm = Some (mirror_board b) →
  board_shape b → is_piece piece →
  score_position (mirror_board b) piece = score_position b piece ∧
  (∀ col, (col < COLUMN_COUNT)%nat →
     simulate (mirror_board b) piece col
     = simulate b piece (COLUMN_COUNT - 1 - col)) ∧
  ∃ best_col best_col' best_score h1 h2,
    pick_best_move l piece h = Ret ((best_col, best_score), h1) ∧
    pick_best_move lm piece h = Ret ((best_col', best_score), h2) ∧
    (best_col = None ↔ best_col' = None) ∧
    ∀ col col', best_col = Some col → best_col' = Some col' →
      (col' < COLUMN_COUNT)%nat ∧ (col ≤ COLUMN_COUNT - 1 - col')%nat.
Proof.
  intros Hl Hlm Hb Hpiece%int64_ok_piece.
  pose proof (mirror_board_shape b Hb) as Hm.
  split; [by apply score_position_mirror_board|].
  split; [intros col Hcol; by apply simulate_mirror|].
  destruct (pick_best_move_run l b piece Hb Hpiece h Hl)
    as ([best_col best_score] & h1 & Hbest & Hrun & _).
  destruct (pick_best_move_run lm _ piece Hm Hpiece h Hlm)
    as ([best_col' best_score'] & h2 & Hbest' & Hrun' & _).
  destruct (best_move_spec b piece Hb) as (res & Hres & Hspec).
  rewrite Hbest in Hres. injection Hres as <-.
  destruct (best_move_spec _ piece Hm) as (res' & Hres' & Hspec').
  rewrite Hbest' in Hres'. injection Hres' as <-.
  exists best_col, best_col', best_score, h1, h2. split; [done|].
  destruct (valid_columns b) as [|c0 cols] eqn:Hvalid.
  - destruct (valid_columns (mirror_board b)) as [|c0' cols'] eqn:Hvalid'.
    + injection Hspec as -> ->. injection Hspec' as -> ->. done.
    + assert (Hc0 : c0' ∈ valid_columns (mirror_board b))
        by (rewrite Hvalid'; by left).
      apply valid_columns_spec in Hc0 as Hlt. destruct Hlt as [Hlt _].
      apply valid_columns_mirror in Hc0; [|done..].
      rewrite Hvalid in Hc0. by apply elem_of_nil in Hc0.
  - destruct Hspec as (col & s & [= -> ->] & Hcol & Hs & Hmax & Hleft).
    rewrite <- Hvalid in Hcol, Hmax, Hleft.
    apply valid_columns_spec in Hcol as Hlt. destruct Hlt as [Hlt _].
    assert (Hcolm : (COLUMN_COUNT - 1 - col)%nat ∈ valid_columns (mirror_board b)).
    { apply valid_columns_mirror; [done|unfold COLUMN_COUNT; lia|].
      by replace (COLUMN_COUNT - 1 - (COLUMN_COUNT - 1 - col))%nat with col
        by (unfold COLUMN_COUNT in *; lia). }
    destruct (valid_columns (mirror_board b)) as [|c0' cols'] eqn:Hvalid';
      [by apply elem_of_nil in Hcolm|].
    destruct Hspec' as (col' & s' & [= -> ->] & Hcol' & Hs' & Hmax' & _).
    rewrite <- Hvalid' in Hcol', Hmax', Hcolm.
    apply valid_columns_spec in Hcol' as Hlt'. destruct Hlt' as [Hlt' _].
    rewrite simulate_mirror in Hs' by done.
    apply valid_columns_mirror in Hcol' as Hcol'b; [|done..].
    destruct (Hmax _ Hcol'b) as (s1 & Hs1 & Hle1).
    rewrite Hs' in Hs1. injection Hs1 as <-.
    destruct (Hmax' _ Hcolm) as (s2 & Hs2 & Hle2).
    rewrite simulate_mirror in Hs2 by (done || (unfold COLUMN_COUNT; lia)).
    replace (COLUMN_COUNT - 1 - (COLUMN_COUNT - 1 - col))%nat with col in Hs2
      by (unfold COLUMN_COUNT in *; lia).
    rewrite Hs in Hs2. injection Hs2 as <-.
    assert (s' = s) as -> by lia.
    split; [done|]. split; [done|].
    intros ? ? [= <-] [= <-]. split; [done|].
    destruct (decide (col ≤ COLUMN_COUNT - 1 - col')%nat) as [|Hgt]; [done|].
    destruct (Hleft _ Hcol'b) as (s3 & Hs3 & Hlt3); [unfold COLUMN_COUNT in *; lia|].
    rewrite Hs' in Hs3. injection Hs3 as <-. lia.
Qed.

Lemma pick_best_move_mirror_witness :
  score_position (mirror_board sample_board) AI_PIECE
  = score_position sample_board AI_PIECE ∧
  (∀ col, (col < COLUMN_COUNT)%nat →
     simulate (mirror_board sample_board) AI_PIECE col
     = simulate sample_board AI_PIECE (COLUMN_COUNT - 1 - col)) ∧
  ∃ best_col best_col' best_score h1 h2,
    pick_best_move 1%positive AI_PIECE
      {[1%positive := sample_board; 2%positive := mirror_board sample_board]}
      = Ret ((best_col, best_score), h1) ∧
    pick_best_move 2%positive AI_PIECE
      {[1%positive := sample_board; 2%positive := mirror_board sample_board]}
      = Ret ((best_col', best_score), h2) ∧
    (best_col = None ↔ best_col' = None) ∧
    ∀ col col', best_col = Some col → best_col' = Some col' →
      (col' < COLUMN_COUNT)%nat ∧ (col ≤ COLUMN_COUNT - 1 - col')%nat.
Proof.
  apply (pick_best_move_mirror
           {[1%positive := sample_board; 2%positive := mirror_board sample_board]}
           1%positive 2%positive sample_board AI_PIECE);
    [reflexivity|reflexivity|split; [reflexivity|repeat constructor]
    |right; reflexivity].
Defined.

(** * The board on the screen *)

(** ** Drawing the board *)

Lemma for_fold_app {A B} (f : list B → A → exc (list B)) (g : A → list B)
    (l : list A) (acc : list B) :
  (∀ s x, x ∈ l → f s x = Ret (s ++ g x)) →
  for_fold f l acc = Ret (acc ++ (l ≫= g)).
Proof.
  revert acc. induction l as [|x l IH]; intros acc Hf.
  - cbn. by rewrite app_nil_r.
  - cbn [for_fold]. rewrite (Hf acc x) by left. rewrite bind_Ret.
    rewrite IH by (intros; apply Hf; by right).
    by rewrite bind_cons, app_assoc.
Qed.

Lemma draw_board_Ret b :
  board_shape b →
  draw_board b =
  Ret ((seq 0 COLUMN_COUNT ≫= λ c, seq 0 ROW_COUNT ≫= square c) ++
       (seq 0 COLUMN_COUNT ≫= λ c, seq 0 ROW_COUNT ≫= disc b c)).
Proof.
  intros Hb. unfold draw_board.
  rewrite (for_fold_app _ (λ c, seq 0 ROW_COUNT ≫= square c)).
  2:{ intros s c _. by apply for_fold_app. }
  rewrite bind_Ret. cbn [app].
  apply (for_fold_app _ (λ c, seq 0 ROW_COUNT ≫= disc b c)).
  intros s c Hc%elem_of_seq. apply for_fold_app.
  intros s' r Hr%elem_of_seq.
  rewrite getitem_cell by (done || lia). rewrite !bind_Ret. unfold disc.
  destruct (cell b r c =? PLAYER_PIECE); [done|].
  destruct (cell b r c =? AI_PIECE); [done|]. by rewrite app_nil_r.
Qed.

Lemma disc_center_inj r c r' c' :
  disc_center r c = disc_center r' c' → r = r' ∧ c = c'.
Proof.
  unfold disc_center, PANEL_WIDTH, WINDOW_HEIGHT, BOARD_HEIGHT, SQUARESIZE,
    ROW_COUNT.
  intros [= Hx Hy]. lia.
Qed.

Lemma elem_of_squares (x : shape) :
  x ∈ (seq 0 COLUMN_COUNT ≫= λ c, seq 0 ROW_COUNT ≫= square c) ↔
  ∃ r c, (r < ROW_COUNT)%nat ∧ (c < COLUMN_COUNT)%nat ∧ x ∈ square c r.
Proof.
  rewrite list_elem_of_bind. split.
  - intros (c & (r & Hx & Hr%elem_of_seq)%list_elem_of_bind & Hc%elem_of_seq).
    exists r, c. split_and!; [lia..|done].
  - intros (r & c & Hr & Hc & Hx). exists c. split; [|apply elem_of_seq; lia].
    apply list_elem_of_bind. exists r. split; [done|apply elem_of_seq; lia].
Qed.

Lemma elem_of_discs b (x : shape) :
  x ∈ (seq 0 COLUMN_COUNT ≫= λ c, seq 0 ROW_COUNT ≫= disc b c) ↔
  ∃ r c, (r < ROW_COUNT)%nat ∧ (c < COLUMN_COUNT)%nat ∧ x ∈ disc b c r.
Proof.
  rewrite list_elem_of_bind. split.
  - intros (c & (r & Hx & Hr%elem_of_seq)%list_elem_of_bind & Hc%elem_of_seq).
    exists r, c. split_and!; [lia..|done].
  - intros (r & c & Hr & Hc & Hx). exists c. split; [|apply elem_of_seq; lia].
    apply list_elem_of_bind. exists r. split; [done|apply elem_of_seq; lia].
Qed.

Lemma elem_of_disc b c r (x : shape) :
  x ∈ disc b c r ↔
  (cell b r c = PLAYER_PIECE ∧ x = DrawCircle RED (disc_center r c) RADIUS) ∨
  (cell b r c = AI_PIECE ∧ x = DrawCircle YELLOW (disc_center r c) RADIUS).
Proof.
  unfold disc. destruct (cell b r c =? PLAYER_PIECE) eqn:Hp.
  - apply Z.eqb_eq in Hp. rewrite list_elem_of_singleton, Hp.
    split; [by left|]. by intros [[_ ->] | [[=] _]].
  - apply Z.eqb_neq in Hp. destruct (cell b r c =? AI_PIECE) eqn:Ha.
    + apply Z.eqb_eq in Ha. rewrite list_elem_of_singleton, Ha.
      split; [by right|]. by intros [[[=] _] | [_ ->]].
    + apply Z.eqb_neq in Ha. rewrite elem_of_nil. split; [done|].
      by intros [[? _] | [? _]].
Qed.

(** X20. On a 6 x 7 board [draw_board] does not raise. For every cell it
    draws a hole, and on the hole a red disc exactly if the cell holds the
    player's piece and a yellow one exactly if it holds the bot's; it draws
    no other disc. Row 0 is the bottom line of holes: a higher row is drawn
    higher on the screen. A click on a disc is a click on the disc's
    column. *)
Theorem draw_board_discs (b : board) :
  board_shape b →
  ∃ screen, draw_board b = Ret screen ∧
    (∀ r c, (r < ROW_COUNT)%nat → (c < COLUMN_COUNT)%nat →
       DrawCircle BLACK (disc_center r c) RADIUS ∈ screen ∧
       (DrawCircle RED (disc_center r c) RADIUS ∈ screen ↔
          getitem b r c = Ret PLAYER_PIECE) ∧
       (DrawCircle YELLOW (disc_center r c) RADIUS ∈ screen ↔
          getitem b r c = Ret AI_PIECE) ∧
       Z.to_nat (((disc_center r c).1 - PANEL_WIDTH) / SQUARESIZE) = c ∧
       (∀ r', (r' < r)%nat → (disc_center r c).2 < (disc_center r' c).2)) ∧
    (∀ color center radius,
       DrawCircle color center radius ∈ screen → color ≠ BLACK →
       ∃ r c, (r < ROW_COUNT)%nat ∧ (c < COLUMN_COUNT)%nat ∧
         center = disc_center r c ∧ radius = RADIUS ∧
         (color = RED ∨ color = YELLOW)).
Proof.
  intros Hb. eexists. split; [by apply draw_board_Ret|]. split.
  - intros r c Hr Hc. split_and!.
    + apply elem_of_app. left. apply elem_of_squares.
      exists (ROW_COUNT - 1 - r)%nat, c.
      split; [unfold ROW_COUNT in *; lia|]. split; [done|].
      unfold square. apply elem_of_cons. right. apply list_elem_of_singleton.
      f_equal. unfold disc_center. f_equal.
      unfold WINDOW_HEIGHT, BOARD_HEIGHT, SQUARESIZE, ROW_COUNT in *.
      change (100 / 2) with 50. lia.
    + rewrite getitem_cell by done. rewrite elem_of_app, elem_of_discs.
      split.
      * intros [(r' & c' & _ & _ & Hx)%elem_of_squares
               | (r' & c' & _ & _ & Hx)].
        -- unfold square in Hx. apply elem_of_cons in Hx as [[=] | Hx].
           by apply list_elem_of_singleton in Hx.
        -- apply elem_of_disc in Hx as [[Hcell Heq] | [_ Heq]];
             [|by injection Heq].
           assert (Hcen : disc_center r' c' = disc_center r c) by congruence.
           apply disc_center_inj in Hcen as [-> ->]. by rewrite Hcell.
      * intros [= Hcell]. right. exists r, c. split_and!; [done..|].
        apply elem_of_disc. by left.
    + rewrite getitem_cell by done. rewrite elem_of_app, elem_of_discs.
      split.
      * intros [(r' & c' & _ & _ & Hx)%elem_of_squares
               | (r' & c' & _ & _ & Hx)].
        -- unfold square in Hx. apply elem_of_cons in Hx as [[=] | Hx].
           by apply list_elem_of_singleton in Hx.
        -- apply elem_of_disc in Hx as [[_ Heq] | [Hcell Heq]];
             [by injection Heq|].
           assert (Hcen : disc_center r' c' = disc_center r c) by congruence.
           apply disc_center_inj in Hcen as [-> ->]. by rewrite Hcell.
      * intros [= Hcell]. right. exists r, c. split_and!; [done..|].
        apply elem_of_disc. by right.
    + unfold disc_center, PANEL_WIDTH, SQUARESIZE. cbn [fst].
      change (100 / 2) with 50.
      replace (320 + Z.of_nat c * 100 + 50 - 320)
        with (50 + Z.of_nat c * 100) by lia.
      rewrite Z.div_add by lia. change (50 / 100) with 0. lia.
    + intros r' Hlt. unfold disc_center, SQUARESIZE. cbn [snd]. lia.
  - intros color center radius Hx Hcolor.
    apply elem_of_app in Hx as [(r & c & _ & _ & Hx)%elem_of_squares | Hx].
    + unfold square in Hx. apply elem_of_cons in Hx as [[=] | Hx].
      apply list_elem_of_singleton in Hx. injection Hx as -> _ _. done.
    + apply elem_of_discs in Hx as (r & c & Hr & Hc & Hx). exists r, c.
      apply elem_of_disc in Hx as [[_ [= -> -> ->]] | [_ [= -> -> ->]]];
        split_and!; try done; [by left|by right].
Qed.

Lemma draw_board_discs_witness :
  ∃ screen, draw_board sample_board = Ret screen ∧
    (∀ r c, (r < ROW_COUNT)%nat → (c < COLUMN_COUNT)%nat →
       DrawCircle BLACK (disc_center r c) RADIUS ∈ screen ∧
       (DrawCircle RED (disc_center r c) RADIUS ∈ screen ↔
          getitem sample_board r c = Ret PLAYER_PIECE) ∧
       (DrawCircle YELLOW (disc_center r c) RADIUS ∈ screen ↔
          getitem sample_board r c = Ret AI_PIECE) ∧
       Z.to_nat (((disc_center r c).1 - PANEL_WIDTH) / SQUARESIZE) = c ∧
       (∀ r', (r' < r)%nat → (disc_center r c).2 < (disc_center r' c).2)) ∧
    (∀ color center radius,
       DrawCircle color center radius ∈ screen → color ≠ BLACK →
       ∃ r c, (r < ROW_COUNT)%nat ∧ (c < COLUMN_COUNT)%nat ∧
         center = disc_center r c ∧ radius = RADIUS ∧
         (color = RED ∨ color = YELLOW)).
Proof.
  apply (draw_board_discs sample_board).
  split; [reflexivity|repeat constructor].
Defined.
